(** * The dielectric-function core of anphon (src/anphon/dielec.cpp)

    A shallow embedding of [Dielec::init], [Dielec::compute_dielectric_function],
    [Dielec::get_zstar_mode] and [Dielec::compute_mode_effective_charge].

    Numbers are the program's: a C++ [double] is a binary64 float, embedded as
    Rocq's primitive [float] (round-to-nearest-even, one NaN), so every
    definition below evaluates with [vm_compute].  Arrays are lists, updated
    in place by index; loops are folds over their index range that thread the
    arrays they mutate. *)

From Stdlib Require Import ZArith Floats Lia Bool.
From stdpp Require Import base list strings.

Set Warnings "-inexact-float".

(** ** Outcomes of a call *)

(** A call either returns, or stops the whole run through [exitall], or has
    no defined behaviour in C++ (an out-of-range conversion, a signed
    overflow). *)
Inductive outcome (A : Type) : Type :=
| Done (a : A)
| ExitAll (file message : string)
| Undefined.
Arguments Done {A} a.
Arguments ExitAll {A} file message.
Arguments Undefined {A}.

#[global] Instance outcome_ret : MRet outcome := fun A a => Done a.
#[global] Instance outcome_bind : MBind outcome := fun A B k m =>
  match m with
  | Done a => k a
  | ExitAll f msg => ExitAll f msg
  | Undefined => Undefined
  end.

#[global] Instance outcome_fmap : FMap outcome := fun A B f m =>
  match m with
  | Done a => Done (f a)
  | ExitAll file msg => ExitAll file msg
  | Undefined => Undefined
  end.

(** Modelled from the spec: [exitall] (declared in error.h, which is not part
    of the verified file) "terminates" the run "with a diagnostic identifying
    the failing operation and the missing requirement"; nothing after the
    call is executed. *)
Definition exitall {A} (file message : string) : outcome A := ExitAll file message.

(** ** Numbers *)

Module Num.

(** [static_cast<double>(i)] for a non-negative [int]. *)
Definition of_nat (i : nat) : float := of_uint63 (Uint63.of_Z (Z.of_nat i)).

(** The integer part of a float, rounded towards zero; [None] for NaN and
    the infinities. *)
Definition trunc (x : float) : option Z :=
  match Prim2SF x with
  | S754_zero _ => Some 0%Z
  | S754_finite s m e =>
      Some (cond_Zopp s (if (0 <=? e)%Z then Z.pos m * 2 ^ e
                         else Z.pos m / 2 ^ (- e)))%Z
  | _ => None
  end.

(** The mathematical floor of a float. *)
Definition floor (x : float) : option Z :=
  match Prim2SF x with
  | S754_zero _ => Some 0%Z
  | S754_finite s m e =>
      Some (if (0 <=? e)%Z then cond_Zopp s (Z.pos m) * 2 ^ e
            else cond_Zopp s (Z.pos m) / 2 ^ (- e))%Z
  | _ => None
  end.

(** [static_cast<int>(x)]: truncation; undefined when the truncated value
    is not a 32-bit [int]. *)
Definition static_cast_int (x : float) : option Z :=
  match trunc x with
  | Some t => if ((- 2 ^ 31 <=? t) && (t <? 2 ^ 31))%Z then Some t else None
  | None => None
  end.

(** Conversion of an [int] to [unsigned int]. *)
Definition to_unsigned (t : Z) : Z := (t mod 2 ^ 32)%Z.

(** [x] is [+0] or [-0], that is [x == 0.0] in C++. *)
Definition is_zero (x : float) : bool :=
  match Prim2SF x with S754_zero _ => true | _ => false end.

(** [x] is neither NaN nor an infinity. *)
Definition is_finite (x : float) : bool :=
  match Prim2SF x with S754_zero _ | S754_finite _ _ _ => true | _ => false end.

(** [x] is a number other than zero: finite and non-zero, or infinite. *)
Definition is_nonzero_number (x : float) : bool :=
  match Prim2SF x with S754_finite _ _ _ | S754_infinity _ => true | _ => false end.

End Num.

(** [std::complex<double>]. *)
Record complex : Type := Cplx { real : float; imag : float }.

(** [z /= d] for a real [d]: both parts are divided. *)
Definition cdiv_real (z : complex) (d : float) : complex :=
  Cplx (real z / d) (imag z / d).

(** [std::norm(z)], the squared magnitude [re^2 + im^2]. *)
Definition norm (z : complex) : float := real z * real z + imag z * imag z.

#[global] Instance float_inhabited : Inhabited float := populate 0%float.
#[global] Instance complex_inhabited : Inhabited complex := populate (Cplx 0 0).

(** ** Arrays *)

(** [a[i]] is [a !!! i] and [a[i] = v] is [<[i:=v]> a].  An index outside
    the array is undefined behaviour in the source; here a read gives the
    default element and a write does nothing, and the theorems assume the
    arrays have the shapes the source allocates. *)
Abbreviation array2 A := (list (list A)) (only parsing).
Abbreviation array3 A := (list (list (list A))) (only parsing).

Definition upd2 {A} (a : array2 A) (i j : nat) (v : A) : array2 A :=
  <[i := <[j := v]> (a !!! i)]> a.

Definition upd3 {A} (a : array3 A) (i j k : nat) (v : A) : array3 A :=
  <[i := upd2 (a !!! i) j k v]> a.

Definition get2 {A} `{Inhabited A} (a : array2 A) (i j : nat) : A :=
  (a !!! i) !!! j.

Definition get3 {A} `{Inhabited A} (a : array3 A) (i j k : nat) : A :=
  ((a !!! i) !!! j) !!! k.

Definition dim2 {A} (n m : nat) (a : array2 A) : Prop :=
  length a = n /\ forall i, i < n -> length (a !!! i) = m.

Definition dim3 {A} (n m l : nat) (a : array3 A) : Prop :=
  length a = n /\ forall i, i < n -> dim2 m l (a !!! i).

(** The shapes, as checks that evaluate. *)
Definition dim2b {A} (n m : nat) (a : array2 A) : bool :=
  (length a =? n)%nat && forallb (fun row => (length row =? m)%nat) a.

Definition dim3b {A} (n m l : nat) (a : array3 A) : bool :=
  (length a =? n)%nat && forallb (dim2b m l) a.

(** Modelled from the spec: [allocate] (memory.h, not part of the verified
    file) gives the engine "its own scratch buffers" of the requested shape.
    The storage is not initialised: what the cells of a new block hold is
    given by [junk], an arbitrary function. *)
Definition allocate1 {A} (junk : nat -> A) (n : nat) : list A :=
  map junk (seq 0 n).
Definition allocate2 {A} (junk : nat -> A) (n m : nat) : array2 A :=
  map (fun i => map (fun j => junk (i * m + j)) (seq 0 m)) (seq 0 n).
Definition allocate3 {A} (junk : nat -> A) (n m l : nat) : array3 A :=
  map (fun i => allocate2 (fun k => junk (i * (m * l) + k)) m l) (seq 0 n).

(** ** Loops *)

(** [for (auto i = lo; i < hi; ++i) body], threading what the body mutates. *)
Definition for_loop {S : Type} (lo hi : nat) (body : nat -> S -> S) (s : S) : S :=
  fold_left (fun s i => body i s) (seq lo (hi - lo)) s.

(** ** Cells

    For the loops that write an array cell by cell, an array is a store of
    cells: [get s x] is the content of cell [x] of [s]. A piece of code [f]
    acts on the cells in [D] through [G] when it leaves a well-formed array
    well formed, replaces the content [v] of every cell [x] of [D] by
    [G x v], and leaves every other cell alone. *)
Definition acts {S I A : Type} (wf : S -> Prop) (get : S -> I -> A)
    (D : I -> Prop) (G : I -> A -> A) (f : S -> S) : Prop :=
  forall s, wf s ->
    wf (f s)
    /\ (forall x, D x -> get (f s) x = G x (get s x))
    /\ (forall x, ~ D x -> get (f s) x = get s x).

(** Two- and three-dimensional arrays as stores of cells. *)
Definition cget2 {A} `{Inhabited A} (a : array2 A) (x : nat * nat) : A :=
  get2 a x.1 x.2.
Definition cupd2 {A} (a : array2 A) (x : nat * nat) (v : A) : array2 A :=
  upd2 a x.1 x.2 v.
Definition in2 (n m : nat) (x : nat * nat) : Prop := x.1 < n /\ x.2 < m.

Definition cget3 {A} `{Inhabited A} (a : array3 A) (x : nat * nat * nat) : A :=
  get3 a x.1.1 x.1.2 x.2.
Definition cupd3 {A} (a : array3 A) (x : nat * nat * nat) (v : A) : array3 A :=
  upd3 a x.1.1 x.1.2 x.2 v.
Definition in3 (n m l : nat) (x : nat * nat * nat) : Prop :=
  x.1.1 < n /\ x.1.2 < m /\ x.2 < l.

(** ** The collaborators the engine borrows from *)

(** constants.h is not part of the verified file: its values are parameters. *)
Record Constants : Type := {
  pi : float;
  time_ry : float;
  Hz_to_kayser : float;
  amu_ry : float
}.

(** [system]: masses per supercell atom, the primitive-to-supercell atom map
    and the primitive-cell volume. *)
Record System : Type := {
  mass : list float;
  map_p2s : array2 nat;
  volume_p : float;
  lavec_p : array2 float
}.

(** [dynamical]: the number of modes, the Born-charge file name, the
    Born-charge table (a null pointer until it is set up) and the projection
    directions. *)
Record Dynamical : Type := {
  neval : nat;
  file_born : string;
  borncharge : option (array3 float);
  projection_directions : array2 float
}.

(** [dos]: the bounds and the spacing of the energy grid. *)
Record Dos : Type := {
  dos_emin : float;
  dos_emax : float;
  dos_delta_e : float
}.

(** The fields of a [Dielec] object (dielec.h is not part of the verified
    file). [nomega] is an [unsigned int], as its broadcast with
    [MPI_UNSIGNED] and [get_omega_grid] say; [dielec] and [omega_grid] are
    null until they are allocated. *)
Record Dielec : Type := {
  calc_dielectric_constant : Z;
  dielec : option (array3 float);
  omega_grid : option (list float);
  emin : float;
  emax : float;
  delta_e : float;
  nomega : Z
}.

(** One process of the run: its rank and the objects its [Dielec] reaches
    through its pointers. *)
Record PHON : Type := {
  my_rank : nat;
  dos : Dos;
  dynamical : Dynamical;
  system : System;
  dielec_obj : Dielec
}.

(** Reading the Born-charge table through the pointer. *)
Definition zstar_of (dyn : Dynamical) : array3 float := default [] (borncharge dyn).

Definition set_default_variables : Dielec :=
  {| calc_dielectric_constant := 0; dielec := None; omega_grid := None;
     emin := 0; emax := 1; delta_e := 1; nomega := 1 |}.

(** ** The engine *)

Section Engine.

Variable K : Constants.

(** What freshly allocated [double] storage happens to hold. *)
Variable junk : nat -> float.

(** The force constants handed to the solver ([fcs_phonon->fc2_ext]). *)
Variable FC2 : Type.

(** The external collaborators of dynamical.h. [eval_k] solves the
    dynamical matrix at a wavevector and returns eigenvalues and
    eigenvectors; [project_degenerate_eigenvectors] returns the symmetrised
    eigenvectors; [setup_dielectric] materialises the Born charges. *)
Variable eval_k :
  Dynamical -> System -> list float -> FC2 -> list float * array2 complex.
Variable project_degenerate_eigenvectors :
  Dynamical -> array2 float -> FC2 -> list float -> array2 float -> array2 complex.
Variable setup_dielectric : Z -> Dynamical -> Dynamical.

(** *** Dielec::init *)

(** Lines 66-71: what rank 0 does before the broadcast. *)
Definition init_root (p : PHON) : outcome PHON :=
  if (my_rank p =? 0)%nat then
    let emax' := dos_emax (dos p) in
    let emin' := dos_emin (dos p) in
    let delta_e' := dos_delta_e (dos p) in
    match Num.static_cast_int ((emax' - emin') / delta_e') with
    | Some n =>
        let d := dielec_obj p in
        Done {| my_rank := my_rank p; dos := dos p; dynamical := dynamical p;
                system := system p;
                dielec_obj :=
                  {| calc_dielectric_constant := calc_dielectric_constant d;
                     dielec := dielec d; omega_grid := omega_grid d;
                     emin := emin'; emax := emax'; delta_e := delta_e';
                     nomega := Num.to_unsigned n |} |}
    | None => Undefined
    end
  else Done p.

(** Lines 73-77: the five [MPI_Bcast] calls with root 0; every process ends
    with the root's values. *)
Definition MPI_Bcast (root : Dielec) (p : PHON) : PHON :=
  let d := dielec_obj p in
  {| my_rank := my_rank p; dos := dos p; dynamical := dynamical p;
     system := system p;
     dielec_obj :=
       {| calc_dielectric_constant := calc_dielectric_constant root;
          dielec := dielec d; omega_grid := omega_grid d;
          emin := emin root; emax := emax root; delta_e := delta_e root;
          nomega := nomega root |} |}.

(** Lines 87-91: the grid array. The counter is an [int]: it cannot reach
    an [nomega] of 2^31 or more. *)
Definition fill_omega_grid (d : Dielec) : outcome (list float) :=
  if (nomega d <? 2 ^ 31)%Z then
    Done (for_loop 0 (Z.to_nat (nomega d))
            (fun i g => <[i := (emin d + delta_e d * Num.of_nat i)%float]> g)
            (allocate1 junk (Z.to_nat (nomega d))))
  else Undefined.

(** Lines 79-98: what every process does after the broadcast. *)
Definition init_local (p : PHON) : outcome PHON :=
  let d := dielec_obj p in
  if negb (calc_dielectric_constant d =? 0)%Z then
    if (my_rank p =? 0)%nat && bool_decide (file_born (dynamical p) = "") then
      exitall "Dielec::init()" "BORNINFO must be set when DIELEC = 1."
    else
      g ← fill_omega_grid d;
      let dyn := match borncharge (dynamical p) with
                 | None => setup_dielectric 1 (dynamical p)
                 | Some _ => dynamical p
                 end in
      Done {| my_rank := my_rank p; dos := dos p; dynamical := dyn;
              system := system p;
              dielec_obj :=
                {| calc_dielectric_constant := calc_dielectric_constant d;
                   dielec := dielec d; omega_grid := Some g;
                   emin := emin d; emax := emax d; delta_e := delta_e d;
                   nomega := nomega d |} |}
  else Done p.

(** [init], run by all processes of the world (the process of rank [r] is
    at position [r]). The broadcast is a blocking collective, and [exitall]
    on one process ends them all. *)
Definition init (world : list PHON) : outcome (list PHON) :=
  w ← mapM init_root world;
  match w with
  | [] => Done []
  | root :: _ => mapM init_local (map (MPI_Bcast (dielec_obj root)) w)
  end.

Definition get_omega_grid (d : Dielec) : option (list float) * Z :=
  (omega_grid d, nomega d).

Definition get_dielectric_func (d : Dielec) : option (array3 float) := dielec d.

(** *** Dielec::compute_dielectric_function

    The mode index, [is] in the source, is written [is_]. *)

(** Lines 157-161. *)
Definition normalize_evec (ns : nat) (sys : System) (evec_in : array2 complex)
  : array2 complex :=
  for_loop 0 ns (fun i ev =>
    for_loop 0 ns (fun j ev =>
      upd2 ev i j
        (cdiv_real (get2 ev i j)
           (PrimFloat.sqrt (mass sys !!! get2 (map_p2s sys) (j / 3) 0)))) ev)
    evec_in.

(** Lines 181-189. *)
Definition project_born (ns : nat) (zstar : array3 float)
    (evec_in : array2 complex) (zstar_u : array2 float) : array2 float :=
  for_loop 0 3 (fun i zu =>
    for_loop 0 ns (fun is_ zu =>
      let zu := upd2 zu i is_ 0%float in
      for_loop 0 ns (fun j zu =>
        upd2 zu i is_
          (get2 zu i is_
           + get3 zstar (j / 3) i (j mod 3)
             * real (get2 evec_in is_ j))%float) zu) zu)
    zstar_u.

(** Lines 214-220. *)
Definition outer_products (ns : nat) (zstar_u : array2 float)
    (s_born : array3 float) : array3 float :=
  for_loop 0 3 (fun i sb =>
    for_loop 0 3 (fun j sb =>
      for_loop 0 ns (fun is_ sb =>
        upd3 sb i j is_ (get2 zstar_u i is_ * get2 zstar_u j is_)%float) sb) sb)
    s_born.

(** Lines 222-238. *)
Definition sum_modes (ns : nat) (sys : System) (nomega_in : nat)
    (omega_grid_in eval_in : list float) (s_born dielec_out : array3 float)
  : array3 float :=
  let freq_conv_factor :=
    (time_ry K * time_ry K / (Hz_to_kayser K * Hz_to_kayser K))%float in
  let factor := (8 * pi K / volume_p sys)%float in
  for_loop 0 nomega_in (fun iomega d =>
    let w2_tmp :=
      (omega_grid_in !!! iomega * omega_grid_in !!! iomega
       * freq_conv_factor)%float in
    for_loop 0 3 (fun i d =>
      for_loop 0 3 (fun j d =>
        let d := upd3 d iomega i j 0%float in
        let d :=
          for_loop 3 ns (fun is_ d =>
            upd3 d iomega i j
              (get3 d iomega i j
               + get3 s_born i j is_ / (eval_in !!! is_ - w2_tmp))%float)
            d in
        upd3 d iomega i j (get3 d iomega i j * factor)%float) d) d)
    dielec_out.

(** The function mutates the caller's [evec_in] and fills the caller's
    [dielec_out]: both are returned. *)
Definition compute_dielectric_function (dyn : Dynamical) (sys : System)
    (nomega_in : nat) (omega_grid_in eval_in : list float)
    (evec_in : array2 complex) (dielec_out : array3 float)
  : array2 complex * array3 float :=
  let ns := neval dyn in
  let zstar := zstar_of dyn in
  let evec_in := normalize_evec ns sys evec_in in
  let zstar_u := allocate2 junk 3 ns in
  let s_born := allocate3 (fun k => junk (3 * ns + k)) 3 3 ns in
  let zstar_u := project_born ns zstar evec_in zstar_u in
  let s_born := outer_products ns zstar_u s_born in
  (evec_in,
   sum_modes ns sys nomega_in omega_grid_in eval_in s_born dielec_out).

(** Lines 112-134: the solve at q = 0 and the call; the tensor series is
    stored in the object. *)
Definition run_dielec_calculation (fc2_ext : FC2) (p : PHON) : PHON :=
  let d := dielec_obj p in
  let ns := neval (dynamical p) in
  let dielec' :=
    allocate3 (fun k => junk (3 * ns + 9 * ns + k)) (Z.to_nat (nomega d)) 3 3 in
  let xk := [0; 0; 0]%float in
  let '(eval, evec) := eval_k (dynamical p) (system p) xk fc2_ext in
  let '(_, dielec') :=
    compute_dielectric_function (dynamical p) (system p) (Z.to_nat (nomega d))
      (default [] (omega_grid d)) eval evec dielec' in
  {| my_rank := my_rank p; dos := dos p; dynamical := dynamical p;
     system := system p;
     dielec_obj :=
       {| calc_dielectric_constant := calc_dielectric_constant d;
          dielec := Some dielec'; omega_grid := omega_grid d;
          emin := emin d; emax := emax d; delta_e := delta_e d;
          nomega := nomega d |} |}.

(** *** Dielec::compute_mode_effective_charge *)

(** Lines 294-299. *)
Definition normalize_evec_amu (ns : nat) (sys : System) (evec : array2 complex)
  : array2 complex :=
  for_loop 0 ns (fun i ev =>
    for_loop 0 ns (fun j ev =>
      upd2 ev i j
        (cdiv_real (get2 ev i j)
           (PrimFloat.sqrt (mass sys !!! get2 (map_p2s sys) (j / 3) 0
                  / amu_ry K)))) ev)
    evec.

(** Lines 303-314. *)
Definition mode_charges (ns : nat) (zstar_atom : array3 float)
    (evec : array2 complex) (do_normalize : bool) (zstar_mode : array2 float)
  : array2 float :=
  for_loop 0 3 (fun i zm =>
    for_loop 0 ns (fun is_ zm =>
      let zm := upd2 zm is_ i 0%float in
      let '(zm, normalization_factor) :=
        for_loop 0 ns (fun j '(zm, nf) =>
          (upd2 zm is_ i
             (get2 zm is_ i
              + get3 zstar_atom (j / 3) i (j mod 3)
                * real (get2 evec is_ j))%float,
           (nf + norm (get2 evec is_ j))%float)) (zm, 0%float) in
      if do_normalize
      then upd2 zm is_ i (get2 zm is_ i / PrimFloat.sqrt normalization_factor)%float
      else zm) zm)
    zstar_mode.

(** Lines 252-318. The Born charges are set up through the [dynamical]
    pointer, so the updated [Dynamical] is returned with the table. *)
Definition compute_mode_effective_charge (fc2_ext : FC2) (dyn : Dynamical)
    (sys : System) (zstar_mode : array2 float) (do_normalize : bool)
  : outcome (Dynamical * array2 float) :=
  if bool_decide (file_born dyn = "") then
    exitall "Dielec::compute_mode_effective_charge()"
            "BORNINFO must be set when DIELEC = 1."
  else
    let dyn := match borncharge dyn with
               | None => setup_dielectric 0 dyn
               | Some _ => dyn
               end in
    let xk := [0; 0; 0]%float in
    let ns := neval dyn in
    let zstar_atom := zstar_of dyn in
    let evec :=
      match projection_directions dyn with
      | _ :: _ =>
          project_degenerate_eigenvectors dyn (lavec_p sys) fc2_ext xk
            (projection_directions dyn)
      | [] => snd (eval_k dyn sys xk fc2_ext)
      end in
    let evec := normalize_evec_amu ns sys evec in
    Done (dyn, mode_charges ns zstar_atom evec do_normalize zstar_mode).

(** Lines 244-250. *)
Definition get_zstar_mode (fc2_ext : FC2) (dyn : Dynamical) (sys : System)
  : outcome (Dynamical * array2 float) :=
  let ns := neval dyn in
  let zstar_mode := replicate ns (replicate 3 0%float) in
  compute_mode_effective_charge fc2_ext dyn sys zstar_mode false.

End Engine.

(** ** What the spec says the engine computes *)

(** The sum of [f k] for [lo <= k < hi], added in index order from [0]. *)
Definition fsum (lo hi : nat) (f : nat -> float) : float :=
  fold_left (fun acc k => (acc + f k)%float) (seq lo (hi - lo)) 0%float.

(** The mass of the atom that owns the Cartesian degree of freedom [j]. *)
Definition mass_of (sys : System) (j : nat) : float :=
  mass sys !!! get2 (map_p2s sys) (j / 3) 0.

Module Spec.
Section Spec.

Variable K : Constants.
Variables (dyn : Dynamical) (sys : System).

(** §4.2, step 1: [evec[is][j]] divided by the square root of the mass of
    atom [j/3]. *)
Definition evec_normalized (evec : array2 complex) (is_ j : nat) : complex :=
  cdiv_real (get2 evec is_ j) (PrimFloat.sqrt (mass_of sys j)).

(** §4.2, step 2. *)
Definition zstar_u (evec : array2 complex) (i is_ : nat) : float :=
  fsum 0 (neval dyn) (fun j =>
    get3 (zstar_of dyn) (j / 3) i (j mod 3)
    * real (evec_normalized evec is_ j))%float.

(** §4.2, step 3. *)
Definition s_born (evec : array2 complex) (i j is_ : nat) : float :=
  (zstar_u evec i is_ * zstar_u evec j is_)%float.

(** The grid frequency squared times the unit-conversion factor. *)
Definition omega_conv2 (omega : float) : float :=
  (omega * omega
   * (time_ry K * time_ry K / (Hz_to_kayser K * Hz_to_kayser K)))%float.

(** §4.2, step 4. *)
Definition dielec (omega_grid eval : list float) (evec : array2 complex)
    (iomega i j : nat) : float :=
  (8 * pi K / volume_p sys
   * fsum 3 (neval dyn) (fun is_ =>
       s_born evec i j is_
       / (eval !!! is_ - omega_conv2 (omega_grid !!! iomega))))%float.

(** §4.3: [evec[is][j]] divided by [sqrt(mass / amu_ry)]. *)
Definition evec_normalized_amu (evec : array2 complex) (is_ j : nat) : complex :=
  cdiv_real (get2 evec is_ j) (PrimFloat.sqrt (mass_of sys j / amu_ry K)).

(** §4.3: the projection of the Born charges on mode [is]. *)
Definition zmode (evec : array2 complex) (is_ i : nat) : float :=
  fsum 0 (neval dyn) (fun j =>
    get3 (zstar_of dyn) (j / 3) i (j mod 3)
    * real (evec_normalized_amu evec is_ j))%float.

(** §4.3: the accumulated norm of the eigenvector of mode [is]. *)
Definition evec_norm (evec : array2 complex) (is_ : nat) : float :=
  fsum 0 (neval dyn) (fun j => norm (evec_normalized_amu evec is_ j)).

(** §4.3: the projection divided by the square root of the norm. *)
Definition zmode_normalized (evec : array2 complex) (is_ i : nat) : float :=
  (zmode evec is_ i / PrimFloat.sqrt (evec_norm evec is_))%float.

End Spec.
End Spec.

(** The Born charges after the lazy set-up of [compute_mode_effective_charge]
    and the eigenvectors it then obtains. *)
Section Solved.

Variable FC2 : Type.
Variable eval_k :
  Dynamical -> System -> list float -> FC2 -> list float * array2 complex.
Variable project_degenerate_eigenvectors :
  Dynamical -> array2 float -> FC2 -> list float -> array2 float -> array2 complex.
Variable setup_dielectric : Z -> Dynamical -> Dynamical.

Definition with_borncharge (verbosity : Z) (dyn : Dynamical) : Dynamical :=
  match borncharge dyn with
  | None => setup_dielectric verbosity dyn
  | Some _ => dyn
  end.

Definition solved_evec (fc2_ext : FC2) (dyn : Dynamical) (sys : System)
  : array2 complex :=
  match projection_directions dyn with
  | _ :: _ =>
      project_degenerate_eigenvectors dyn (lavec_p sys) fc2_ext [0; 0; 0]%float
        (projection_directions dyn)
  | [] => snd (eval_k dyn sys [0; 0; 0]%float fc2_ext)
  end.

End Solved.

(** A world is well formed when the process at position [r] has rank [r]. *)
Definition ranked (world : list PHON) : Prop :=
  forall r p, world !! r = Some p -> my_rank p = r.

(** The process [p] holds the grid of [n] points [lo + i * step]. *)
Definition has_grid (p : PHON) (n : Z) (lo step : float) : Prop :=
  nomega (dielec_obj p) = n
  /\ exists g,
       omega_grid (dielec_obj p) = Some g
       /\ length g = Z.to_nat n
       /\ forall i, i < Z.to_nat n ->
            g !!! i = (lo + Num.of_nat i * step)%float.

(** The grid arrays the processes of a world hold. *)
Definition grids_of (world : list PHON) : list (option (list float)) :=
  map (fun p => omega_grid (dielec_obj p)) world.

(** Consecutive grid points increase strictly ([<] of C++ on doubles). *)
Fixpoint strictly_increasing (g : list float) : bool :=
  match g with
  | x :: (y :: _) as t => (x <? y)%float && strictly_increasing t
  | _ => true
  end.

(** Every entry of every Born-charge tensor is zero. *)
Definition all_zero (z : array3 float) : Prop :=
  forall a i j, Num.is_zero (get3 z a i j) = true.

(** What [init] leaves alone in a process: its rank, its [dos] and [system],
    and the tensor series of its [Dielec]. *)
Definition init_frame (p p' : PHON) : Prop :=
  my_rank p' = my_rank p /\ dos p' = dos p /\ system p' = system p
  /\ dielec (dielec_obj p') = dielec (dielec_obj p).

(** The process [p'] holds what the root broadcast: the root's flag, and the
    grid scalars the root derived from its [dos], [n] being the quotient
    converted to [int]. *)
Definition received (root : PHON) (n : Z) (p' : PHON) : Prop :=
  calc_dielectric_constant (dielec_obj p')
  = calc_dielectric_constant (dielec_obj root)
  /\ nomega (dielec_obj p') = Num.to_unsigned n
  /\ emin (dielec_obj p') = dos_emin (dos root)
  /\ emax (dielec_obj p') = dos_emax (dos root)
  /\ delta_e (dielec_obj p') = dos_delta_e (dos root).

(** The quotient that [init] converts to [nomega]. *)
Definition grid_quotient (p : PHON) : float :=
  (dos_emax (dos p) - dos_emin (dos p)) / dos_delta_e (dos p).

(** ** The statements in the order the code runs them *)

(** A run of a list of statements: the labels of the statements that
    completed, the state the run ended in, and how it ended. [exitall] and
    undefined behaviour end the run at the statement that meets them; that
    statement is not among the completed ones, and none after it is run. *)
Record run (L S : Type) : Type :=
  Run { executed : list L; at_end : S; result : outcome unit }.

Arguments Run {L S} executed at_end result.
Arguments executed {L S} r.
Arguments at_end {L S} r.
Arguments result {L S} r.

Fixpoint run_steps {L S} (prog : list (L * (S -> outcome S))) (s : S)
  : run L S :=
  match prog with
  | [] => Run [] s (Done tt)
  | (l, f) :: rest =>
      match f s with
      | Done s' =>
          let r := run_steps rest s' in
          Run (l :: executed r) (at_end r) (result r)
      | ExitAll file message => Run [] s (ExitAll file message)
      | Undefined => Run [] s Undefined
      end
  end.

(** What the caller gets from a run. *)
Definition finish {L S} (r : run L S) : outcome S :=
  match result r with
  | Done _ => Done (at_end r)
  | ExitAll file message => ExitAll file message
  | Undefined => Undefined
  end.

(** The statements of [Dielec::init], as one process runs them. *)
Inductive init_statement : Type :=
| Derive          (* lines 66-71 *)
| Broadcast       (* lines 73-77 *)
| CheckBornFile   (* lines 79-85 *)
| FillGrid        (* lines 87-91 *)
| SetupBorn.      (* lines 93-97 *)

(** The statements of [Dielec::compute_mode_effective_charge]. *)
Inductive charge_statement : Type :=
| CheckFile       (* lines 257-260 *)
| SetupBornQuiet  (* lines 262-266 *)
| Solve           (* lines 268-291 *)
| Normalize       (* lines 294-299 *)
| FillTable.      (* lines 303-314 *)

(** What [compute_mode_effective_charge] works on: the [Dynamical] behind
    the pointer, its local eigenvector array, and the caller's table. *)
Record charge_state : Type :=
  { cs_dynamical : Dynamical;
    cs_evec : array2 complex;
    cs_zstar_mode : array2 float }.

Section Statements.

Variable K : Constants.
Variable junk : nat -> float.
Variable FC2 : Type.
Variable eval_k :
  Dynamical -> System -> list float -> FC2 -> list float * array2 complex.
Variable project_degenerate_eigenvectors :
  Dynamical -> array2 float -> FC2 -> list float -> array2 float -> array2 complex.
Variable setup_dielectric : Z -> Dynamical -> Dynamical.

(** Lines 73-77 on one process: rank 0 sends its own members and keeps
    them, every other process receives [sent], the members of rank 0. *)
Definition broadcast (sent : Dielec) (p : PHON) : outcome PHON :=
  Done (MPI_Bcast (if (my_rank p =? 0)%nat then dielec_obj p else sent) p).

(** Lines 79-85: the check, made when the calculation is enabled and by
    rank 0 only. *)
Definition check_born_file (p : PHON) : outcome PHON :=
  if negb (calc_dielectric_constant (dielec_obj p) =? 0)%Z then
    if (my_rank p =? 0)%nat && bool_decide (file_born (dynamical p) = "") then
      exitall "Dielec::init()" "BORNINFO must be set when DIELEC = 1."
    else Done p
  else Done p.

(** Lines 87-91, inside the [if] of line 79. *)
Definition fill_grid (p : PHON) : outcome PHON :=
  let d := dielec_obj p in
  if negb (calc_dielectric_constant d =? 0)%Z then
    g ← fill_omega_grid junk d;
    Done {| my_rank := my_rank p; dos := dos p; dynamical := dynamical p;
            system := system p;
            dielec_obj :=
              {| calc_dielectric_constant := calc_dielectric_constant d;
                 dielec := dielec d; omega_grid := Some g;
                 emin := emin d; emax := emax d; delta_e := delta_e d;
                 nomega := nomega d |} |}
  else Done p.

(** Lines 93-97, inside the [if] of line 79. *)
Definition setup_born (p : PHON) : outcome PHON :=
  if negb (calc_dielectric_constant (dielec_obj p) =? 0)%Z then
    Done {| my_rank := my_rank p; dos := dos p;
            dynamical := with_borncharge setup_dielectric 1 (dynamical p);
            system := system p; dielec_obj := dielec_obj p |}
  else Done p.

(** [Dielec::init] on one process, statement by statement. *)
Definition init_statements (sent : Dielec)
  : list (init_statement * (PHON -> outcome PHON)) :=
  [ (Derive, init_root);
    (Broadcast, broadcast sent);
    (CheckBornFile, check_born_file);
    (FillGrid, fill_grid);
    (SetupBorn, setup_born) ].

(** [Dielec::compute_mode_effective_charge], statement by statement. *)
Definition charge_statements (fc2_ext : FC2) (sys : System)
    (do_normalize : bool)
  : list (charge_statement * (charge_state -> outcome charge_state)) :=
  [ (CheckFile, fun s =>
       if bool_decide (file_born (cs_dynamical s) = "") then
         exitall "Dielec::compute_mode_effective_charge()"
                 "BORNINFO must be set when DIELEC = 1."
       else Done s);
    (SetupBornQuiet, fun s =>
       Done {| cs_dynamical := with_borncharge setup_dielectric 0 (cs_dynamical s);
               cs_evec := cs_evec s; cs_zstar_mode := cs_zstar_mode s |});
    (Solve, fun s =>
       Done {| cs_dynamical := cs_dynamical s;
               cs_evec :=
                 solved_evec FC2 eval_k project_degenerate_eigenvectors fc2_ext
                   (cs_dynamical s) sys;
               cs_zstar_mode := cs_zstar_mode s |});
    (Normalize, fun s =>
       Done {| cs_dynamical := cs_dynamical s;
               cs_evec :=
                 normalize_evec_amu K (neval (cs_dynamical s)) sys (cs_evec s);
               cs_zstar_mode := cs_zstar_mode s |});
    (FillTable, fun s =>
       Done {| cs_dynamical := cs_dynamical s;
               cs_evec := cs_evec s;
               cs_zstar_mode :=
                 mode_charges (neval (cs_dynamical s))
                   (zstar_of (cs_dynamical s)) (cs_evec s) do_normalize
                   (cs_zstar_mode s) |}) ].

End Statements.

(** Sample values, for evaluating the definitions: two atoms, six modes. *)
Module Sample.

Definition K : Constants :=
  {| pi := 0x1.921fb54442d18p+1; time_ry := 1; Hz_to_kayser := 2; amu_ry := 4 |}.

Definition junk (k : nat) : float := PrimFloat.of_uint63 (Uint63.of_Z (Z.of_nat k)).

Definition sys : System :=
  {| mass := [4; 16]%float; map_p2s := [[0]; [1]]; volume_p := 2; lavec_p := [] |}.

Definition charges (q : float) : array3 float :=
  [ [[q; 0; 0]; [0; q; 0]; [0; 0; q]];
    [[-q; 0; 0]; [0; -q; 0]; [0; 0; -q]] ]%float.

Definition dyn (file : string) (z : option (array3 float)) : Dynamical :=
  {| neval := 6; file_born := file; borncharge := z; projection_directions := [] |}.

(** The unit vectors as eigenvectors. *)
Definition evec : array2 complex :=
  map (fun i => map (fun j => Cplx (if (i =? j)%nat then 1 else 0) 0) (seq 0 6))
      (seq 0 6).

Definition eval : list float := [0; 0; 0; 1; 2; 3]%float.

Definition eval_k (d : Dynamical) (s : System) (xk : list float) (fc : unit)
  : list float * array2 complex := (eval, evec).

Definition project_degenerate_eigenvectors (d : Dynamical) (lavec : array2 float)
    (fc : unit) (xk : list float) (dirs : array2 float) : array2 complex := evec.

Definition setup_dielectric (verbosity : Z) (d : Dynamical) : Dynamical :=
  {| neval := neval d; file_born := file_born d;
     borncharge := Some (charges 1); projection_directions := projection_directions d |}.

Definition process (rank : nat) (flag : Z) (file : string) (lo hi step : float)
  : PHON :=
  {| my_rank := rank;
     dos := {| dos_emin := lo; dos_emax := hi; dos_delta_e := step |};
     dynamical := dyn file None; system := sys;
     dielec_obj :=
       {| calc_dielectric_constant := if (rank =? 0)%nat then flag else 0;
          dielec := None; omega_grid := None;
          emin := 0; emax := 1; delta_e := 1; nomega := 1 |} |}.

End Sample.

(** * Proofs *)

(** ** The definitions on the sample values *)

Example static_cast_int_truncates : Num.static_cast_int (-3.75) = Some (-3)%Z.
Proof. reflexivity. Qed.

Example floor_rounds_down : Num.floor (-3.75) = Some (-4)%Z.
Proof. reflexivity. Qed.

Example static_cast_int_out_of_range : Num.static_cast_int 1e10 = None.
Proof. reflexivity. Qed.

Example init_fills_the_grid :
  grids_of <$>
    init Sample.junk Sample.setup_dielectric
      [Sample.process 0 1 "born" 0 10.5 2; Sample.process 1 0 "born" 5 7 3]
  = Done [Some [0; 2; 4; 6; 8]%float; Some [0; 2; 4; 6; 8]%float].
Proof. vm_compute. reflexivity. Qed.

Example sample_grid_increases :
  strictly_increasing [0; 2; 4; 6; 8]%float = true.
Proof. reflexivity. Qed.

Example init_disabled_allocates_nothing :
  grids_of <$>
    init Sample.junk Sample.setup_dielectric [Sample.process 0 0 "" 0 10.5 2]
  = Done [None].
Proof. vm_compute. reflexivity. Qed.

Example init_zero_spacing_undefined :
  init Sample.junk Sample.setup_dielectric [Sample.process 0 1 "born" 0 10.5 0]
  = Undefined.
Proof. vm_compute. reflexivity. Qed.

Example dielectric_function_sample :
  (compute_dielectric_function Sample.K Sample.junk
     (Sample.dyn "born" (Some (Sample.charges 1))) Sample.sys 2 [0; 1]%float
     Sample.eval Sample.evec (allocate3 Sample.junk 2 3 3)).2
  = [ [[0.78539816339744828; 0; 0]; [0; 0.39269908169872414; 0];
       [0; 0; 0.26179938779914941]];
      [[1.0471975511965976; 0; 0]; [0; 0.44879895051282759; 0];
       [0; 0; 0.28559933214452665]] ]%float.
Proof. vm_compute. reflexivity. Qed.

Example get_zstar_mode_sample :
  snd <$> get_zstar_mode Sample.K unit Sample.eval_k
            Sample.project_degenerate_eigenvectors Sample.setup_dielectric tt
            (Sample.dyn "born" None) Sample.sys
  = Done [[1; 0; 0]; [0; 1; 0]; [0; 0; 1];
          [-0.5; 0; 0]; [0; -0.5; 0]; [0; 0; -0.5]]%float.
Proof. vm_compute. reflexivity. Qed.

(** The two mass normalisations differ: [sqrt(16)] against [sqrt(16/4)]. *)
Example normalizations_differ :
  Spec.evec_normalized Sample.sys Sample.evec 3 3 = Cplx 0.25 0
  /\ Spec.evec_normalized_amu Sample.K Sample.sys Sample.evec 3 3 = Cplx 0.5 0.
Proof. split; vm_compute; reflexivity. Qed.

(** ** Loops *)

Lemma for_loop_done {S} lo hi (body : nat -> S -> S) s :
  hi <= lo -> for_loop lo hi body s = s.
Proof.
  intros H. unfold for_loop. replace (hi - lo) with 0 by lia. reflexivity.
Qed.

Lemma for_loop_step {S} lo hi (body : nat -> S -> S) s :
  lo <= hi ->
  for_loop lo (Datatypes.S hi) body s = body hi (for_loop lo hi body s).
Proof.
  intros H. unfold for_loop.
  replace (Datatypes.S hi - lo) with (Datatypes.S (hi - lo)) by lia.
  rewrite seq_S, fold_left_app. simpl.
  replace (lo + (hi - lo)) with hi by lia. reflexivity.
Qed.

(** The invariant rule: [P i s] holds when the loop is about to run its
    iteration [i]. *)
Lemma for_loop_inv {S} (P : nat -> S -> Prop) lo hi (body : nat -> S -> S) s :
  lo <= hi ->
  P lo s ->
  (forall i s, lo <= i < hi -> P i s -> P (Datatypes.S i) (body i s)) ->
  P hi (for_loop lo hi body s).
Proof.
  intros Hle H0 Hstep. induction hi as [|hi IH].
  - assert (lo = 0) by lia. subst. exact H0.
  - destruct (decide (lo = Datatypes.S hi)) as [->|Hne].
    + rewrite for_loop_done by lia. exact H0.
    + rewrite for_loop_step by lia. apply Hstep; [lia|].
      apply IH; [lia|]. intros i s' Hi. apply Hstep. lia.
Qed.

Lemma for_loop_ext {S} lo hi (f g : nat -> S -> S) s :
  (forall i s, lo <= i < hi -> f i s = g i s) ->
  for_loop lo hi f s = for_loop lo hi g s.
Proof.
  intros H. destruct (decide (lo <= hi)) as [Hle|Hgt].
  - induction hi as [|hi IH].
    + rewrite !for_loop_done by lia. reflexivity.
    + destruct (decide (lo = Datatypes.S hi)) as [->|Hne].
      * rewrite !for_loop_done by lia. reflexivity.
      * rewrite !for_loop_step by lia. rewrite IH; [apply H; lia| |lia].
        intros i s' Hi. apply H. lia.
  - rewrite !for_loop_done by lia. reflexivity.
Qed.

Lemma fsum_ext lo hi f g :
  (forall k, lo <= k < hi -> f k = g k) -> fsum lo hi f = fsum lo hi g.
Proof.
  intros H. unfold fsum.
  change (for_loop lo hi (fun k acc => (acc + f k)%float) 0%float
          = for_loop lo hi (fun k acc => (acc + g k)%float) 0%float).
  apply for_loop_ext. intros i s Hi. rewrite H by lia. reflexivity.
Qed.

(** ** Arrays *)

Section Arrays.

Context {A : Type} `{Inhabited A}.

Lemma get2_upd2_eq (a : array2 A) i j v :
  i < length a -> j < length (a !!! i) -> get2 (upd2 a i j v) i j = v.
Proof.
  intros Hi Hj. unfold get2, upd2.
  rewrite list_lookup_total_insert_eq by exact Hi.
  apply list_lookup_total_insert_eq. exact Hj.
Qed.

Lemma get2_upd2_ne (a : array2 A) i j i' j' v :
  i' <> i \/ j' <> j -> get2 (upd2 a i j v) i' j' = get2 a i' j'.
Proof.
  intros Hne. unfold get2, upd2.
  destruct (decide (i = i')) as [<-|Hi].
  - destruct (decide (i < length a)) as [Hlt|Hge].
    + rewrite list_lookup_total_insert_eq by exact Hlt.
      apply list_lookup_total_insert_ne. destruct Hne; congruence.
    + rewrite list_insert_ge by lia. reflexivity.
  - rewrite list_lookup_total_insert_ne by exact Hi. reflexivity.
Qed.

Lemma dim2_upd2 n m (a : array2 A) i j v :
  dim2 n m a -> dim2 n m (upd2 a i j v).
Proof.
  intros [Hn Hm]. unfold upd2. split.
  - rewrite length_insert. exact Hn.
  - intros i' Hi'. destruct (decide (i = i')) as [<-|Hne].
    + rewrite list_lookup_total_insert_eq by lia.
      rewrite length_insert. apply Hm, Hi'.
    + rewrite list_lookup_total_insert_ne by exact Hne. apply Hm, Hi'.
Qed.

Lemma get3_upd3_eq n m l (a : array3 A) i j k v :
  dim3 n m l a -> i < n -> j < m -> k < l ->
  get3 (upd3 a i j k v) i j k = v.
Proof.
  intros [Hn Hd] Hi Hj Hk. unfold get3, upd3.
  rewrite list_lookup_total_insert_eq by lia.
  destruct (Hd i Hi) as [Hm Hl].
  apply (get2_upd2_eq (a !!! i)); [lia|]. rewrite Hl; lia.
Qed.

Lemma get3_upd3_ne (a : array3 A) i j k i' j' k' v :
  i' <> i \/ j' <> j \/ k' <> k ->
  get3 (upd3 a i j k v) i' j' k' = get3 a i' j' k'.
Proof.
  intros Hne. unfold get3, upd3.
  destruct (decide (i = i')) as [<-|Hi].
  - destruct (decide (i < length a)) as [Hlt|Hge].
    + rewrite list_lookup_total_insert_eq by exact Hlt.
      apply (get2_upd2_ne (a !!! i)). destruct Hne as [?|[?|?]]; auto; congruence.
    + rewrite list_insert_ge by lia. reflexivity.
  - rewrite list_lookup_total_insert_ne by exact Hi. reflexivity.
Qed.

Lemma dim3_upd3 n m l (a : array3 A) i j k v :
  dim3 n m l a -> dim3 n m l (upd3 a i j k v).
Proof.
  intros [Hn Hd]. unfold upd3. split.
  - rewrite length_insert. exact Hn.
  - intros i' Hi'. destruct (decide (i = i')) as [<-|Hne].
    + rewrite list_lookup_total_insert_eq by lia. apply dim2_upd2, Hd, Hi'.
    + rewrite list_lookup_total_insert_ne by exact Hne. apply Hd, Hi'.
Qed.

(** Two arrays of one shape with the same cells are the same array. *)
Lemma array1_ext {B : Type} `{Inhabited B} n (a b : list B) :
  length a = n -> length b = n ->
  (forall i, i < n -> a !!! i = b !!! i) -> a = b.
Proof.
  intros Ha Hb Hab. apply list_eq_same_length with n; [exact Hb|exact Ha|].
  intros i x y Hi Hx Hy.
  apply list_lookup_total_correct in Hx, Hy. rewrite <- Hx, <- Hy.
  apply Hab, Hi.
Qed.

Lemma array2_ext n m (a b : array2 A) :
  dim2 n m a -> dim2 n m b ->
  (forall i j, i < n -> j < m -> get2 a i j = get2 b i j) -> a = b.
Proof.
  intros [Ha Ha'] [Hb Hb'] Hab. apply (array1_ext n); [exact Ha|exact Hb|].
  intros i Hi. apply (array1_ext m); [apply Ha', Hi|apply Hb', Hi|].
  intros j Hj. apply Hab; assumption.
Qed.

Lemma array3_ext n m l (a b : array3 A) :
  dim3 n m l a -> dim3 n m l b ->
  (forall i j k, i < n -> j < m -> k < l -> get3 a i j k = get3 b i j k) ->
  a = b.
Proof.
  intros [Ha Ha'] [Hb Hb'] Hab. apply (array1_ext n); [exact Ha|exact Hb|].
  intros i Hi. apply (array2_ext m l); [apply Ha', Hi|apply Hb', Hi|].
  intros j k Hj Hk. apply Hab; assumption.
Qed.

Lemma dim2_allocate2 (junk : nat -> A) n m : dim2 n m (allocate2 junk n m).
Proof.
  unfold allocate2. split.
  - rewrite length_map, length_seq. reflexivity.
  - intros i Hi.
    rewrite (list_lookup_total_correct _ i
               (map (fun j => junk (i * m + j)) (seq 0 m))).
    + rewrite length_map, length_seq. reflexivity.
    + rewrite list_lookup_fmap, lookup_seq_lt by exact Hi. reflexivity.
Qed.

Lemma dim3_allocate3 (junk : nat -> A) n m l : dim3 n m l (allocate3 junk n m l).
Proof.
  unfold allocate3. split.
  - rewrite length_map, length_seq. reflexivity.
  - intros i Hi.
    rewrite (list_lookup_total_correct _ i
               (allocate2 (fun k => junk (i * (m * l) + k)) m l)).
    + apply dim2_allocate2.
    + rewrite list_lookup_fmap, lookup_seq_lt by exact Hi. reflexivity.
Qed.

Lemma dim2_replicate n m (x : A) : dim2 n m (replicate n (replicate m x)).
Proof.
  split.
  - apply length_replicate.
  - intros i Hi. rewrite lookup_total_replicate_2 by exact Hi.
    apply length_replicate.
Qed.

End Arrays.

(** ** Loops that write cells of an array *)

Section Cells.

Context {S I A : Type}.
Variable wf : S -> Prop.
Variable get : S -> I -> A.

Lemma acts_ext (D D' : I -> Prop) G f :
  (forall x, D x <-> D' x) -> acts wf get D G f -> acts wf get D' G f.
Proof.
  intros HD Hf s Hs. destruct (Hf s Hs) as (Hwf & Hin & Hout).
  split; [exact Hwf|]. split.
  - intros x Hx. apply Hin, HD, Hx.
  - intros x Hx. apply Hout. intros Hx'. apply Hx, HD, Hx'.
Qed.

(** A loop whose iterations act on disjoint sets of cells acts on their
    union. *)
Lemma acts_loop n (D : nat -> I -> Prop) G (body : nat -> S -> S) :
  (forall k, k < n -> acts wf get (D k) G (body k)) ->
  (forall k k' x, k < n -> k' < n -> D k x -> D k' x -> k = k') ->
  acts wf get (fun x => exists k, k < n /\ D k x) G (for_loop 0 n body).
Proof.
  intros Hbody Hdisj. induction n as [|n IH]; intros s Hs.
  - rewrite for_loop_done by lia. split; [exact Hs|]. split.
    + intros x (k & Hk & _). lia.
    + reflexivity.
  - rewrite for_loop_step by lia.
    destruct (IH (fun k Hk => Hbody k (Nat.lt_lt_succ_r _ _ Hk))
                 (fun k k' x Hk Hk' => Hdisj k k' x (Nat.lt_lt_succ_r _ _ Hk)
                                         (Nat.lt_lt_succ_r _ _ Hk'))
                 s Hs) as (Hwf & Hin & Hout).
    destruct (Hbody n (Nat.lt_succ_diag_r n) _ Hwf) as (Hwf' & Hin' & Hout').
    split; [exact Hwf'|]. split.
    + intros x (k & Hk & Hx). destruct (decide (k = n)) as [->|Hne].
      * rewrite Hin' by exact Hx. rewrite Hout; [reflexivity|].
        intros (k' & Hk' & Hx').
        pose proof (Hdisj n k' x (Nat.lt_succ_diag_r n)
                      (Nat.lt_lt_succ_r _ _ Hk') Hx Hx'). lia.
      * rewrite Hout'.
        -- apply Hin. exists k. split; [lia|exact Hx].
        -- intros Hx'. apply Hne.
           apply (Hdisj k n x Hk (Nat.lt_succ_diag_r n) Hx Hx').
    + intros x Hx. rewrite Hout'.
      * apply Hout. intros (k & Hk & Hx'). apply Hx. exists k. split; [lia|exact Hx'].
      * intros Hx'. apply Hx. exists n. split; [lia|exact Hx'].
Qed.

(** Two and three nested loops whose innermost body acts on one cell. *)
Lemma acts_nest2 n m (cell : nat -> nat -> I) G (body : nat -> nat -> S -> S) :
  (forall i j, i < n -> j < m -> acts wf get (fun x => x = cell i j) G (body i j)) ->
  (forall i j i' j', cell i j = cell i' j' -> i = i' /\ j = j') ->
  acts wf get (fun x => exists i j, i < n /\ j < m /\ x = cell i j) G
    (for_loop 0 n (fun i s => for_loop 0 m (fun j s => body i j s) s)).
Proof.
  intros Hbody Hinj.
  apply (acts_ext (fun x => exists i, i < n /\ exists j, j < m /\ x = cell i j)).
  { intros x. split.
    - intros (i & Hi & j & Hj & Hx). eauto.
    - intros (i & j & Hi & Hj & Hx). eauto. }
  apply (acts_loop n (fun i x => exists j, j < m /\ x = cell i j)).
  - intros i Hi.
    apply (acts_loop m (fun j x => x = cell i j)).
    + intros j Hj. apply Hbody; assumption.
    + intros j j' x _ _ -> Hx. apply Hinj in Hx. tauto.
  - intros i i' x _ _ (j & _ & ->) (j' & _ & Hx). apply Hinj in Hx. tauto.
Qed.

Lemma acts_nest3 n m l (cell : nat -> nat -> nat -> I) G
    (body : nat -> nat -> nat -> S -> S) :
  (forall i j k, i < n -> j < m -> k < l ->
     acts wf get (fun x => x = cell i j k) G (body i j k)) ->
  (forall i j k i' j' k',
     cell i j k = cell i' j' k' -> i = i' /\ j = j' /\ k = k') ->
  acts wf get (fun x => exists i j k, i < n /\ j < m /\ k < l /\ x = cell i j k) G
    (for_loop 0 n (fun i s =>
       for_loop 0 m (fun j s => for_loop 0 l (fun k s => body i j k s) s) s)).
Proof.
  intros Hbody Hinj.
  apply (acts_ext (fun x => exists i, i < n /\
                     exists j k, j < m /\ k < l /\ x = cell i j k)).
  { intros x. split.
    - intros (i & Hi & j & k & Hj & Hk & Hx). eauto 8.
    - intros (i & j & k & Hi & Hj & Hk & Hx). eauto 8. }
  apply (acts_loop n (fun i x => exists j k, j < m /\ k < l /\ x = cell i j k)).
  - intros i Hi. apply (acts_nest2 m l (cell i)).
    + intros j k Hj Hk. apply Hbody; assumption.
    + intros j k j' k' Hx. apply Hinj in Hx. tauto.
  - intros i i' x _ _ (j & k & _ & _ & ->) (j' & k' & _ & _ & Hx).
    apply Hinj in Hx. tauto.
Qed.

(** In-place accumulation in one cell [c]. *)
Variable upd : S -> I -> A -> S.
Variable valid : I -> Prop.
Hypothesis get_upd_eq :
  forall s c v, wf s -> valid c -> get (upd s c v) c = v.
Hypothesis get_upd_ne :
  forall s c x v, x <> c -> get (upd s c v) x = get s x.
Hypothesis wf_upd : forall s c v, wf s -> wf (upd s c v).

Lemma acts_upd c G (f : S -> S) :
  valid c ->
  (forall s, wf s -> f s = upd s c (G c (get s c))) ->
  acts wf get (fun x => x = c) G f.
Proof.
  intros Hc Hf s Hs. rewrite (Hf s Hs). split; [apply wf_upd, Hs|]. split.
  - intros x ->. apply get_upd_eq; assumption.
  - intros x Hx. apply get_upd_ne, Hx.
Qed.

Lemma accumulate_spec c lo hi (h : nat -> A -> A) s :
  wf s -> valid c ->
  let r := for_loop lo hi (fun k s => upd s c (h k (get s c))) s in
  wf r
  /\ get r c = fold_left (fun acc k => h k acc) (seq lo (hi - lo)) (get s c)
  /\ (forall x, x <> c -> get r x = get s x).
Proof.
  intros Hs Hc r. subst r. destruct (decide (lo <= hi)) as [Hle|Hgt].
  2:{ rewrite for_loop_done by lia. replace (hi - lo) with 0 by lia. simpl. auto. }
  apply (for_loop_inv (fun k r =>
    wf r
    /\ get r c = fold_left (fun acc k => h k acc) (seq lo (k - lo)) (get s c)
    /\ (forall x, x <> c -> get r x = get s x))); [exact Hle| |].
  - replace (lo - lo) with 0 by lia. simpl. auto.
  - intros k r Hk (Hwf & Hval & Hoth). split; [apply wf_upd, Hwf|]. split.
    + rewrite get_upd_eq by assumption.
      replace (Datatypes.S k - lo) with (Datatypes.S (k - lo)) by lia.
      rewrite seq_S, fold_left_app. simpl.
      replace (lo + (k - lo)) with k by lia. rewrite Hval. reflexivity.
    + intros x Hx. rewrite get_upd_ne by exact Hx. apply Hoth, Hx.
Qed.

(** [a[c] = z; for (k) a[c] = h(k, a[c]);] writes the folded value in [c]. *)
Lemma acts_accumulate c lo hi (z : A) (h : nat -> A -> A) G :
  valid c ->
  (forall v, G c v = fold_left (fun acc k => h k acc) (seq lo (hi - lo)) z) ->
  acts wf get (fun x => x = c) G
    (fun s => for_loop lo hi (fun k s => upd s c (h k (get s c))) (upd s c z)).
Proof.
  intros Hc HG s Hs.
  destruct (accumulate_spec c lo hi h (upd s c z) (wf_upd s c z Hs) Hc)
    as (Hwf & Hval & Hoth).
  split; [exact Hwf|]. split.
  - intros x ->. rewrite Hval, get_upd_eq by assumption. symmetry. apply HG.
  - intros x Hx. rewrite Hoth by exact Hx. apply get_upd_ne, Hx.
Qed.

(** The same, followed by [a[c] = post(a[c]);]. *)
Lemma acts_accumulate_post c lo hi (z : A) (h : nat -> A -> A) (post : A -> A) G :
  valid c ->
  (forall v,
     G c v = post (fold_left (fun acc k => h k acc) (seq lo (hi - lo)) z)) ->
  acts wf get (fun x => x = c) G
    (fun s =>
       let s := for_loop lo hi (fun k s => upd s c (h k (get s c))) (upd s c z) in
       upd s c (post (get s c))).
Proof.
  intros Hc HG s Hs.
  destruct (accumulate_spec c lo hi h (upd s c z) (wf_upd s c z Hs) Hc)
    as (Hwf & Hval & Hoth).
  split; [apply wf_upd, Hwf|]. split.
  - intros x ->. cbv zeta. rewrite get_upd_eq by assumption.
    rewrite Hval, get_upd_eq by assumption. symmetry. apply HG.
  - intros x Hx. cbv zeta. rewrite get_upd_ne by exact Hx.
    rewrite Hoth by exact Hx. apply get_upd_ne, Hx.
Qed.

End Cells.

(** A loop over a pair of independent accumulators is the pair of the loops. *)
Lemma for_loop_pair {S T} lo hi (f : nat -> S -> S) (g : nat -> T -> T) s t :
  for_loop lo hi (fun k '(s, t) => (f k s, g k t)) (s, t)
  = (for_loop lo hi f s, for_loop lo hi g t).
Proof.
  destruct (decide (lo <= hi)) as [Hle|Hgt].
  - induction hi as [|hi IH].
    + rewrite !for_loop_done by lia. reflexivity.
    + destruct (decide (lo = Datatypes.S hi)) as [->|Hne].
      * rewrite !for_loop_done by lia. reflexivity.
      * rewrite !for_loop_step by lia. rewrite IH by lia. reflexivity.
  - rewrite !for_loop_done by lia. reflexivity.
Qed.

Section Grids.

Context {A : Type} `{Inhabited A}.

Lemma cget2_cupd2_eq n m (s : array2 A) c v :
  dim2 n m s -> in2 n m c -> cget2 (cupd2 s c v) c = v.
Proof.
  intros [Hn Hm] [Hi Hj]. apply get2_upd2_eq; [lia|]. rewrite Hm; lia.
Qed.

Lemma cget2_cupd2_ne (s : array2 A) c x v :
  x <> c -> cget2 (cupd2 s c v) x = cget2 s x.
Proof.
  destruct c as [i j], x as [i' j']. intros Hne. apply get2_upd2_ne. simpl.
  destruct (decide (i' = i)) as [Hi|]; [right|left; assumption].
  intros Hj. apply Hne. congruence.
Qed.

Lemma dim2_cupd2 n m (s : array2 A) c v : dim2 n m s -> dim2 n m (cupd2 s c v).
Proof. apply dim2_upd2. Qed.

Lemma cget3_cupd3_eq n m l (s : array3 A) c v :
  dim3 n m l s -> in3 n m l c -> cget3 (cupd3 s c v) c = v.
Proof.
  intros Hs (Hi & Hj & Hk). apply (get3_upd3_eq n m l); assumption.
Qed.

Lemma cget3_cupd3_ne (s : array3 A) c x v :
  x <> c -> cget3 (cupd3 s c v) x = cget3 s x.
Proof.
  destruct c as [[i j] k], x as [[i' j'] k']. intros Hne. apply get3_upd3_ne.
  simpl.
  destruct (decide (i' = i)) as [Hi|]; [|left; assumption].
  destruct (decide (j' = j)) as [Hj|]; [|right; left; assumption].
  right; right. intros Hk. apply Hne. congruence.
Qed.

Lemma dim3_cupd3 n m l (s : array3 A) c v :
  dim3 n m l s -> dim3 n m l (cupd3 s c v).
Proof. apply dim3_upd3. Qed.

End Grids.

(** ** Facts about binary64 arithmetic *)

Module FloatFacts.

Lemma SF64mul_comm x y : SF64mul x y = SF64mul y x.
Proof.
  unfold SF64mul, SFmul.
  destruct x as [sx|sx| |sx mx ex], y as [sy|sy| |sy my ey];
    rewrite ?(xorb_comm sx sy); try reflexivity.
  rewrite (Pos.mul_comm mx my), (Z.add_comm ex ey). reflexivity.
Qed.

(** Multiplication of doubles commutes. *)
Lemma mul_comm (x y : float) : (x * y)%float = (y * x)%float.
Proof.
  apply Prim2SF_inj. rewrite !mul_spec. apply SF64mul_comm.
Qed.

Lemma is_zero_0 : Num.is_zero 0 = true.
Proof. reflexivity. Qed.

(** [Num.is_zero] is the comparison [x == 0.0] of doubles. *)
Lemma is_zero_eqb (x : float) : Num.is_zero x = (x =? 0)%float.
Proof.
  unfold Num.is_zero. rewrite FloatAxioms.eqb_spec.
  change (Prim2SF 0) with (S754_zero false).
  destruct (Prim2SF x) as [s|s| |s m e]; try reflexivity; destruct s; reflexivity.
Qed.

(** [+0] plus a zero of either sign is [+0]. *)
Lemma add_zero (t : float) : Num.is_zero t = true -> (0 + t)%float = 0%float.
Proof.
  unfold Num.is_zero. intros Ht. apply Prim2SF_inj. rewrite add_spec.
  destruct (Prim2SF t) as [s|s| |s m e]; try discriminate.
  destruct s; reflexivity.
Qed.

(** A zero times a finite number is a zero. *)
Lemma mul_zero_l (x y : float) :
  Num.is_zero x = true -> Num.is_finite y = true -> Num.is_zero (x * y) = true.
Proof.
  unfold Num.is_zero, Num.is_finite. rewrite mul_spec.
  destruct (Prim2SF x) as [sx|sx| |sx mx ex]; try discriminate.
  destruct (Prim2SF y) as [sy|sy| |sy my ey]; try discriminate; reflexivity.
Qed.

(** A finite number times a zero is a zero. *)
Lemma mul_zero_r (x y : float) :
  Num.is_finite x = true -> Num.is_zero y = true -> Num.is_zero (x * y) = true.
Proof.
  intros Hx Hy. rewrite mul_comm. apply mul_zero_l; assumption.
Qed.

(** A zero divided by a number other than zero is a zero. *)
Lemma div_zero_l (x y : float) :
  Num.is_zero x = true -> Num.is_nonzero_number y = true ->
  Num.is_zero (x / y) = true.
Proof.
  unfold Num.is_zero, Num.is_nonzero_number. rewrite div_spec.
  destruct (Prim2SF x) as [sx|sx| |sx mx ex]; try discriminate.
  destruct (Prim2SF y) as [sy|sy| |sy my ey]; try discriminate; reflexivity.
Qed.

(** A sum of zeros is [+0]. *)
Lemma fsum_zero lo hi f :
  (forall k, lo <= k < hi -> Num.is_zero (f k) = true) -> fsum lo hi f = 0%float.
Proof.
  intros Hf. unfold fsum. destruct (decide (lo <= hi)) as [Hle|Hgt].
  - change (for_loop lo hi (fun k acc => (acc + f k)%float) 0%float = 0%float).
    apply (for_loop_inv (fun _ acc => acc = 0%float)); [exact Hle|reflexivity|].
    intros k acc Hk ->. apply add_zero, Hf, Hk.
  - replace (hi - lo) with 0 by lia. reflexivity.
Qed.

End FloatFacts.

(** ** The loops of the engine *)

(** Both mass normalisations divide column [j] of the eigenvector array by a
    number that depends on [j] only. *)
Lemma divide_columns_spec ns (dv : nat -> float) (evec : array2 complex) :
  dim2 ns ns evec ->
  let r :=
    for_loop 0 ns (fun i ev =>
      for_loop 0 ns (fun j ev =>
        upd2 ev i j (cdiv_real (get2 ev i j) (dv j))) ev) evec in
  dim2 ns ns r
  /\ forall i j, i < ns -> j < ns ->
       get2 r i j = cdiv_real (get2 evec i j) (dv j).
Proof.
  intros Hdim r. subst r.
  destruct (acts_nest2 (dim2 ns ns) cget2 ns ns (fun i j => (i, j))
              (fun x v => cdiv_real v (dv x.2))
              (fun i j ev => upd2 ev i j (cdiv_real (get2 ev i j) (dv j))))
    with (s := evec) as (Hwf & Hin & _).
  - intros i j Hi Hj.
    apply (acts_upd (dim2 ns ns) cget2 cupd2 (in2 ns ns)
             (cget2_cupd2_eq ns ns) cget2_cupd2_ne (dim2_cupd2 ns ns) (i, j)).
    + split; assumption.
    + reflexivity.
  - intros i j i' j' Hx. split; congruence.
  - exact Hdim.
  - split; [exact Hwf|]. intros i j Hi Hj. apply (Hin (i, j)). eauto.
Qed.

Lemma normalize_evec_spec ns sys (evec : array2 complex) :
  dim2 ns ns evec ->
  dim2 ns ns (normalize_evec ns sys evec)
  /\ forall i j, i < ns -> j < ns ->
       get2 (normalize_evec ns sys evec) i j
       = cdiv_real (get2 evec i j) (PrimFloat.sqrt (mass_of sys j)).
Proof.
  apply (divide_columns_spec ns (fun j => PrimFloat.sqrt (mass_of sys j))).
Qed.

Lemma normalize_evec_amu_spec K ns sys (evec : array2 complex) :
  dim2 ns ns evec ->
  dim2 ns ns (normalize_evec_amu K ns sys evec)
  /\ forall i j, i < ns -> j < ns ->
       get2 (normalize_evec_amu K ns sys evec) i j
       = cdiv_real (get2 evec i j) (PrimFloat.sqrt (mass_of sys j / amu_ry K)).
Proof.
  apply (divide_columns_spec ns
           (fun j => PrimFloat.sqrt (mass_of sys j / amu_ry K))).
Qed.

Lemma project_born_spec ns zstar (evec : array2 complex) (zu0 : array2 float) :
  dim2 3 ns zu0 ->
  dim2 3 ns (project_born ns zstar evec zu0)
  /\ forall i is_, i < 3 -> is_ < ns ->
       get2 (project_born ns zstar evec zu0) i is_
       = fsum 0 ns (fun j =>
           get3 zstar (j / 3) i (j mod 3) * real (get2 evec is_ j))%float.
Proof.
  intros Hdim. unfold project_born.
  destruct (acts_nest2 (dim2 3 ns) cget2 3 ns (fun i is_ => (i, is_))
              (fun x _ => fsum 0 ns (fun j =>
                 get3 zstar (j / 3) x.1 (j mod 3) * real (get2 evec x.2 j))%float)
              (fun i is_ zu =>
                 let zu := upd2 zu i is_ 0%float in
                 for_loop 0 ns (fun j zu =>
                   upd2 zu i is_
                     (get2 zu i is_
                      + get3 zstar (j / 3) i (j mod 3)
                        * real (get2 evec is_ j))%float) zu))
    with (s := zu0) as (Hwf & Hin & _).
  - intros i is_ Hi His.
    apply (acts_accumulate (dim2 3 ns) cget2 cupd2 (in2 3 ns)
             (cget2_cupd2_eq 3 ns) cget2_cupd2_ne (dim2_cupd2 3 ns) (i, is_) 0 ns
             0%float
             (fun j acc =>
                (acc + get3 zstar (j / 3) i (j mod 3)
                       * real (get2 evec is_ j))%float)).
    + split; assumption.
    + reflexivity.
  - intros i j i' j' Hx. split; congruence.
  - exact Hdim.
  - split; [exact Hwf|]. intros i is_ Hi His. apply (Hin (i, is_)). eauto.
Qed.

Lemma outer_products_spec ns (zu : array2 float) (sb0 : array3 float) :
  dim3 3 3 ns sb0 ->
  dim3 3 3 ns (outer_products ns zu sb0)
  /\ forall i j is_, i < 3 -> j < 3 -> is_ < ns ->
       get3 (outer_products ns zu sb0) i j is_
       = (get2 zu i is_ * get2 zu j is_)%float.
Proof.
  intros Hdim. unfold outer_products.
  destruct (acts_nest3 (dim3 3 3 ns) cget3 3 3 ns (fun i j is_ => (i, j, is_))
              (fun x _ => (get2 zu x.1.1 x.2 * get2 zu x.1.2 x.2)%float)
              (fun i j is_ sb =>
                 upd3 sb i j is_ (get2 zu i is_ * get2 zu j is_)%float))
    with (s := sb0) as (Hwf & Hin & _).
  - intros i j is_ Hi Hj His.
    apply (acts_upd (dim3 3 3 ns) cget3 cupd3 (in3 3 3 ns)
             (cget3_cupd3_eq 3 3 ns) cget3_cupd3_ne (dim3_cupd3 3 3 ns)
             (i, j, is_)).
    + repeat split; assumption.
    + reflexivity.
  - intros i j k i' j' k' Hx. repeat split; congruence.
  - exact Hdim.
  - split; [exact Hwf|]. intros i j is_ Hi Hj His. apply (Hin (i, j, is_)).
    eauto 8.
Qed.

Lemma sum_modes_spec K ns sys nomega_in (omega_grid_in eval_in : list float)
    (sb d0 : array3 float) :
  dim3 nomega_in 3 3 d0 ->
  dim3 nomega_in 3 3 (sum_modes K ns sys nomega_in omega_grid_in eval_in sb d0)
  /\ forall iomega i j, iomega < nomega_in -> i < 3 -> j < 3 ->
       get3 (sum_modes K ns sys nomega_in omega_grid_in eval_in sb d0) iomega i j
       = (fsum 3 ns (fun is_ =>
            get3 sb i j is_
            / (eval_in !!! is_ - Spec.omega_conv2 K (omega_grid_in !!! iomega)))
          * (8 * pi K / volume_p sys))%float.
Proof.
  intros Hdim. unfold sum_modes.
  destruct (acts_nest3 (dim3 nomega_in 3 3) cget3 nomega_in 3 3
              (fun iomega i j => (iomega, i, j))
              (fun x _ =>
                 (fsum 3 ns (fun is_ =>
                    get3 sb x.1.2 x.2 is_
                    / (eval_in !!! is_
                       - Spec.omega_conv2 K (omega_grid_in !!! x.1.1)))
                  * (8 * pi K / volume_p sys))%float)
              (fun iomega i j d =>
                 let d := upd3 d iomega i j 0%float in
                 let d :=
                   for_loop 3 ns (fun is_ d =>
                     upd3 d iomega i j
                       (get3 d iomega i j
                        + get3 sb i j is_
                          / (eval_in !!! is_
                             - Spec.omega_conv2 K (omega_grid_in !!! iomega)))%float)
                     d in
                 upd3 d iomega i j
                   (get3 d iomega i j * (8 * pi K / volume_p sys))%float))
    with (s := d0) as (Hwf & Hin & _).
  - intros iomega i j Hio Hi Hj.
    apply (acts_accumulate_post (dim3 nomega_in 3 3) cget3 cupd3 (in3 nomega_in 3 3)
             (cget3_cupd3_eq nomega_in 3 3) cget3_cupd3_ne
             (dim3_cupd3 nomega_in 3 3) (iomega, i, j) 3 ns 0%float
             (fun is_ acc =>
                (acc + get3 sb i j is_
                       / (eval_in !!! is_
                          - Spec.omega_conv2 K (omega_grid_in !!! iomega)))%float)
             (fun v => (v * (8 * pi K / volume_p sys))%float)).
    + repeat split; assumption.
    + reflexivity.
  - intros i j k i' j' k' Hx. repeat split; congruence.
  - exact Hdim.
  - split; [exact Hwf|]. intros iomega i j Hio Hi Hj.
    apply (Hin (iomega, i, j)). eauto 8.
Qed.

Lemma mode_charges_spec ns zstar (evec : array2 complex) do_normalize
    (zm0 : array2 float) :
  dim2 ns 3 zm0 ->
  dim2 ns 3 (mode_charges ns zstar evec do_normalize zm0)
  /\ forall is_ i, is_ < ns -> i < 3 ->
       get2 (mode_charges ns zstar evec do_normalize zm0) is_ i
       = let z := fsum 0 ns (fun j =>
                    get3 zstar (j / 3) i (j mod 3) * real (get2 evec is_ j))%float in
         if do_normalize
         then (z / PrimFloat.sqrt (fsum 0 ns (fun j => norm (get2 evec is_ j))))%float
         else z.
Proof.
  intros Hdim. unfold mode_charges.
  set (term := fun (is_ i j : nat) =>
    (get3 zstar (j / 3) i (j mod 3) * real (get2 evec is_ j))%float).
  set (G := fun (x : nat * nat) (_ : float) =>
    let z := fsum 0 ns (term x.1 x.2) in
    if do_normalize
    then (z / PrimFloat.sqrt (fsum 0 ns (fun j => norm (get2 evec x.1 j))))%float
    else z).
  destruct (acts_nest2 (dim2 ns 3) cget2 3 ns (fun i is_ => (is_, i)) G
              (fun i is_ zm =>
                 let zm := upd2 zm is_ i 0%float in
                 let '(zm, normalization_factor) :=
                   for_loop 0 ns (fun j '(zm, nf) =>
                     (upd2 zm is_ i (get2 zm is_ i + term is_ i j)%float,
                      (nf + norm (get2 evec is_ j))%float)) (zm, 0%float) in
                 if do_normalize
                 then upd2 zm is_ i
                        (get2 zm is_ i / PrimFloat.sqrt normalization_factor)%float
                 else zm))
    with (s := zm0) as (Hwf & Hin & _).
  - intros i is_ Hi His s Hs. cbv zeta.
    rewrite (for_loop_pair 0 ns
               (fun j zm => upd2 zm is_ i (get2 zm is_ i + term is_ i j)%float)
               (fun j nf => (nf + norm (get2 evec is_ j))%float)).
    assert (Hc : in2 ns 3 (is_, i)) by (split; assumption).
    set (R := for_loop 0 ns
                (fun j zm => upd2 zm is_ i (get2 zm is_ i + term is_ i j)%float)
                (upd2 s is_ i 0%float)).
    assert (HR : dim2 ns 3 R
                 /\ get2 R is_ i = fsum 0 ns (term is_ i)
                 /\ forall x, x <> (is_, i) -> cget2 R x = cget2 s x).
    { destruct (accumulate_spec (dim2 ns 3) cget2 cupd2 (in2 ns 3)
                  (cget2_cupd2_eq ns 3) cget2_cupd2_ne (dim2_cupd2 ns 3)
                  (is_, i) 0 ns (fun j acc => (acc + term is_ i j)%float)
                  (cupd2 s (is_, i) 0%float)
                  (dim2_cupd2 ns 3 s (is_, i) 0%float Hs) Hc)
        as (Hwf & Hval & Hoth).
      rewrite (cget2_cupd2_eq ns 3) in Hval by assumption.
      split; [exact Hwf|]. split; [exact Hval|].
      intros x Hx. rewrite <- (cget2_cupd2_ne s (is_, i) x 0%float) by exact Hx.
      apply Hoth, Hx. }
    destruct HR as (Hwf & Hval & Hoth).
    unfold G. destruct do_normalize.
    + split; [apply dim2_upd2, Hwf|]. split.
      * intros x ->.
        etransitivity; [apply (cget2_cupd2_eq ns 3 _ (is_, i)); assumption|].
        rewrite Hval. reflexivity.
      * intros x Hx.
        etransitivity; [apply (cget2_cupd2_ne _ (is_, i)), Hx|].
        apply Hoth, Hx.
    + split; [exact Hwf|]. split.
      * intros x ->. exact Hval.
      * intros x Hx. apply Hoth, Hx.
  - intros i j i' j' Hx. split; congruence.
  - exact Hdim.
  - split; [exact Hwf|]. intros is_ i His Hi. apply (Hin (is_, i)). eauto.
Qed.

Lemma dim2b_true {A} n m (a : array2 A) : dim2b n m a = true -> dim2 n m a.
Proof.
  unfold dim2b. intros Hb. apply andb_true_iff in Hb as [Hn Hrows].
  apply Nat.eqb_eq in Hn. split; [exact Hn|]. intros i Hi.
  rewrite forallb_forall in Hrows.
  apply Nat.eqb_eq, Hrows, list_elem_of_In, list_elem_of_lookup_total_2. lia.
Qed.

Lemma dim3b_true {A} n m l (a : array3 A) : dim3b n m l a = true -> dim3 n m l a.
Proof.
  unfold dim3b. intros Hb. apply andb_true_iff in Hb as [Hn Hrows].
  apply Nat.eqb_eq in Hn. split; [exact Hn|]. intros i Hi.
  rewrite forallb_forall in Hrows.
  apply dim2b_true, Hrows, list_elem_of_In, list_elem_of_lookup_total_2. lia.
Qed.

(** Shape obligations of concrete arrays are settled by evaluation. *)
Ltac shape := first [apply dim2b_true | apply dim3b_true]; vm_compute; reflexivity.

(** ** The dielectric function *)

(** What one call of [compute_dielectric_function] leaves in the caller's
    two arrays. *)
Lemma compute_dielectric_function_spec K junk dyn sys nomega_in
    (omega_grid_in eval_in : list float) (evec_in : array2 complex)
    (dielec_out : array3 float) :
  dim2 (neval dyn) (neval dyn) evec_in ->
  dim3 nomega_in 3 3 dielec_out ->
  let out := compute_dielectric_function K junk dyn sys nomega_in omega_grid_in
               eval_in evec_in dielec_out in
  dim2 (neval dyn) (neval dyn) out.1
  /\ (forall is_ j, is_ < neval dyn -> j < neval dyn ->
        get2 out.1 is_ j = Spec.evec_normalized sys evec_in is_ j)
  /\ dim3 nomega_in 3 3 out.2
  /\ (forall iomega i j, iomega < nomega_in -> i < 3 -> j < 3 ->
        get3 out.2 iomega i j
        = Spec.dielec K dyn sys omega_grid_in eval_in evec_in iomega i j).
Proof.
  intros Hev Hd out. subst out. unfold compute_dielectric_function.
  set (ns := neval dyn) in *. cbv zeta. simpl fst. simpl snd.
  destruct (normalize_evec_spec ns sys evec_in Hev) as (Hev' & Hnorm).
  set (ev := normalize_evec ns sys evec_in) in *.
  destruct (project_born_spec ns (zstar_of dyn) ev (allocate2 junk 3 ns)
              (dim2_allocate2 junk 3 ns)) as (Hzu & Hproj).
  set (zu := project_born ns (zstar_of dyn) ev (allocate2 junk 3 ns)) in *.
  destruct (outer_products_spec ns zu
              (allocate3 (fun k => junk (3 * ns + k)) 3 3 ns)
              (dim3_allocate3 _ 3 3 ns)) as (Hsb & Houter).
  set (sb := outer_products ns zu _) in *.
  destruct (sum_modes_spec K ns sys nomega_in omega_grid_in eval_in sb dielec_out Hd)
    as (Hout & Hsum).
  split; [exact Hev'|]. split; [exact Hnorm|]. split; [exact Hout|].
  intros iomega i j Hio Hi Hj. rewrite Hsum by assumption.
  unfold Spec.dielec. fold ns. rewrite FloatFacts.mul_comm. f_equal.
  assert (Hz : forall i' is_, i' < 3 -> is_ < ns ->
                 get2 zu i' is_ = Spec.zstar_u dyn sys evec_in i' is_).
  { intros i' is_ Hi' His. rewrite Hproj by assumption. unfold Spec.zstar_u.
    fold ns. apply fsum_ext. intros k Hk. rewrite Hnorm by lia. reflexivity. }
  apply fsum_ext. intros is_ His. rewrite Houter by lia.
  unfold Spec.s_born. rewrite !Hz by lia. reflexivity.
Qed.

(** The tensor does not read the modes 0, 1 and 2. *)
Lemma dielec_ignores_acoustic K dyn sys (omega_grid eval eval' : list float)
    (evec evec' : array2 complex) iomega i j :
  (forall is_, 3 <= is_ < neval dyn ->
     eval' !!! is_ = eval !!! is_
     /\ forall k, k < neval dyn -> get2 evec' is_ k = get2 evec is_ k) ->
  Spec.dielec K dyn sys omega_grid eval' evec' iomega i j
  = Spec.dielec K dyn sys omega_grid eval evec iomega i j.
Proof.
  intros Hsame. unfold Spec.dielec. f_equal. apply fsum_ext. intros is_ His.
  destruct (Hsame is_ His) as (-> & Hvec).
  assert (Hz : forall i', Spec.zstar_u dyn sys evec' i' is_
                          = Spec.zstar_u dyn sys evec i' is_).
  { intros i'. unfold Spec.zstar_u. apply fsum_ext. intros k Hk.
    unfold Spec.evec_normalized. rewrite Hvec by lia. reflexivity. }
  unfold Spec.s_born. rewrite !Hz. reflexivity.
Qed.

(** C1: [compute_dielectric_function] first divides every eigenvector
    component [evec[is][j]] by the square root of the mass of atom [j/3], then
    forms [zstar_u[i][is]] as the sum over [j] of
    [BornCharge[j/3][i][j mod 3] * Re(evec[is][j])], and fills
    [dielec[iomega][i][j]] with [(8 pi / V)] times the sum over the modes
    [is >= 3] of [zstar_u[i][is] * zstar_u[j][is] / (eval[is] - omega_conv^2)];
    the modes 0, 1 and 2 contribute nothing: changing their eigenvalues and
    eigenvectors changes no entry of the tensor. *)
Theorem C1_dielectric_function_formula K junk dyn sys nomega_in
    (omega_grid_in eval_in : list float) (evec_in : array2 complex)
    (dielec_out : array3 float) :
  dim2 (neval dyn) (neval dyn) evec_in ->
  dim3 nomega_in 3 3 dielec_out ->
  let out := compute_dielectric_function K junk dyn sys nomega_in omega_grid_in
               eval_in evec_in dielec_out in
  (forall is_ j, is_ < neval dyn -> j < neval dyn ->
     get2 out.1 is_ j
     = cdiv_real (get2 evec_in is_ j) (PrimFloat.sqrt (mass_of sys j)))
  /\ (forall iomega i j, iomega < nomega_in -> i < 3 -> j < 3 ->
        get3 out.2 iomega i j
        = Spec.dielec K dyn sys omega_grid_in eval_in evec_in iomega i j)
  /\ (forall eval' evec',
        dim2 (neval dyn) (neval dyn) evec' ->
        (forall is_, 3 <= is_ < neval dyn ->
           eval' !!! is_ = eval_in !!! is_
           /\ forall k, k < neval dyn -> get2 evec' is_ k = get2 evec_in is_ k) ->
        forall iomega i j, iomega < nomega_in -> i < 3 -> j < 3 ->
          get3 (compute_dielectric_function K junk dyn sys nomega_in
                  omega_grid_in eval' evec' dielec_out).2 iomega i j
          = get3 out.2 iomega i j).
Proof.
  intros Hev Hd out.
  destruct (compute_dielectric_function_spec K junk dyn sys nomega_in
              omega_grid_in eval_in evec_in dielec_out Hev Hd)
    as (_ & Hnorm & _ & Hval).
  split; [exact Hnorm|]. split; [exact Hval|].
  intros eval' evec' Hev' Hsame iomega i j Hio Hi Hj.
  destruct (compute_dielectric_function_spec K junk dyn sys nomega_in
              omega_grid_in eval' evec' dielec_out Hev' Hd)
    as (_ & _ & _ & Hval').
  rewrite Hval' by assumption. subst out. rewrite Hval by assumption.
  apply dielec_ignores_acoustic, Hsame.
Qed.

Lemma C1_dielectric_function_formula_witness :
  get3 (compute_dielectric_function Sample.K Sample.junk
          (Sample.dyn "born" (Some (Sample.charges 1))) Sample.sys 2
          [0; 1]%float Sample.eval Sample.evec
          (allocate3 Sample.junk 2 3 3)).2 1 0 0
  = Spec.dielec Sample.K (Sample.dyn "born" (Some (Sample.charges 1))) Sample.sys
      [0; 1]%float Sample.eval Sample.evec 1 0 0.
Proof.
  refine (proj1 (proj2 (C1_dielectric_function_formula Sample.K Sample.junk
            (Sample.dyn "born" (Some (Sample.charges 1))) Sample.sys 2
            [0; 1]%float Sample.eval Sample.evec (allocate3 Sample.junk 2 3 3)
            _ _)) 1 0 0 _ _ _); [shape|shape|lia|lia|lia].
Defined.

(** C5: for every input and every grid index [k], the matrix produced by
    [compute_dielectric_function] is symmetric, [dielec[k][i][j]] is
    [dielec[k][j][i]], because every per-mode contribution [s_born[i][j][is]]
    is the product [zstar_u[i][is] * zstar_u[j][is]] of two entries of one
    real vector. The two entries are the same double; compared with [==]
    they are equal whenever the entry is a number. *)
Theorem C5_dielectric_tensor_symmetric K junk dyn sys nomega_in
    (omega_grid_in eval_in : list float) (evec_in : array2 complex)
    (dielec_out : array3 float) :
  dim2 (neval dyn) (neval dyn) evec_in ->
  dim3 nomega_in 3 3 dielec_out ->
  let out := compute_dielectric_function K junk dyn sys nomega_in omega_grid_in
               eval_in evec_in dielec_out in
  (forall i j is_,
     Spec.s_born dyn sys evec_in i j is_ = Spec.s_born dyn sys evec_in j i is_)
  /\ forall k i j, k < nomega_in -> i < 3 -> j < 3 ->
       get3 out.2 k i j = get3 out.2 k j i
       /\ (is_nan (get3 out.2 k i j) = false ->
           (get3 out.2 k i j =? get3 out.2 k j i)%float = true).
Proof.
  intros Hev Hd out.
  assert (Hsym : forall i j is_,
            Spec.s_born dyn sys evec_in i j is_ = Spec.s_born dyn sys evec_in j i is_).
  { intros i j is_. unfold Spec.s_born. apply FloatFacts.mul_comm. }
  split; [exact Hsym|]. intros k i j Hk Hi Hj.
  destruct (compute_dielectric_function_spec K junk dyn sys nomega_in
              omega_grid_in eval_in evec_in dielec_out Hev Hd)
    as (_ & _ & _ & Hval).
  assert (Heq : get3 out.2 k i j = get3 out.2 k j i).
  { subst out. rewrite !Hval by assumption. unfold Spec.dielec. f_equal.
    apply fsum_ext. intros is_ _. rewrite Hsym. reflexivity. }
  split; [exact Heq|]. rewrite <- Heq. unfold is_nan.
  intros Hnan. apply negb_false_iff, Hnan.
Qed.

Lemma C5_dielectric_tensor_symmetric_witness :
  let out := compute_dielectric_function Sample.K Sample.junk
               (Sample.dyn "born" (Some (Sample.charges 1))) Sample.sys 2
               [0; 1]%float Sample.eval Sample.evec
               (allocate3 Sample.junk 2 3 3) in
  get3 out.2 1 0 2 = get3 out.2 1 2 0.
Proof.
  refine (proj1 (proj2 (C5_dielectric_tensor_symmetric Sample.K Sample.junk
            (Sample.dyn "born" (Some (Sample.charges 1))) Sample.sys 2
            [0; 1]%float Sample.eval Sample.evec (allocate3 Sample.junk 2 3 3)
            _ _) 1 0 2 _ _ _)); [shape|shape|lia|lia|lia].
Defined.

(** C9: [compute_dielectric_function] mutates its [evec_in] argument in
    place: after the call every component of the caller's array is the old
    one divided by the square root of the owning atom's mass, nothing
    restores it, and a second call on the same array divides a second time
    and computes its tensor from the array the first call left. *)
Theorem C9_evec_normalized_in_place K junk dyn sys nomega_in
    (omega_grid_in eval_in : list float) (evec_in : array2 complex)
    (dielec_out dielec_out' : array3 float) :
  dim2 (neval dyn) (neval dyn) evec_in ->
  dim3 nomega_in 3 3 dielec_out ->
  dim3 nomega_in 3 3 dielec_out' ->
  let first := compute_dielectric_function K junk dyn sys nomega_in omega_grid_in
                 eval_in evec_in dielec_out in
  let second := compute_dielectric_function K junk dyn sys nomega_in omega_grid_in
                  eval_in first.1 dielec_out' in
  (forall is_ j, is_ < neval dyn -> j < neval dyn ->
     get2 first.1 is_ j
     = cdiv_real (get2 evec_in is_ j) (PrimFloat.sqrt (mass_of sys j)))
  /\ (forall is_ j, is_ < neval dyn -> j < neval dyn ->
        get2 second.1 is_ j
        = cdiv_real
            (cdiv_real (get2 evec_in is_ j) (PrimFloat.sqrt (mass_of sys j)))
            (PrimFloat.sqrt (mass_of sys j)))
  /\ (forall iomega i j, iomega < nomega_in -> i < 3 -> j < 3 ->
        get3 second.2 iomega i j
        = Spec.dielec K dyn sys omega_grid_in eval_in first.1 iomega i j).
Proof.
  intros Hev Hd Hd' first second.
  destruct (compute_dielectric_function_spec K junk dyn sys nomega_in
              omega_grid_in eval_in evec_in dielec_out Hev Hd)
    as (Hev1 & Hnorm1 & _ & _).
  destruct (compute_dielectric_function_spec K junk dyn sys nomega_in
              omega_grid_in eval_in first.1 dielec_out' Hev1 Hd')
    as (_ & Hnorm2 & _ & Hval2).
  split; [exact Hnorm1|]. split; [|exact Hval2].
  intros is_ j His Hj. subst second. rewrite Hnorm2 by assumption.
  unfold Spec.evec_normalized at 1. subst first. rewrite Hnorm1 by assumption.
  reflexivity.
Qed.

Lemma C9_evec_normalized_in_place_witness :
  let first := compute_dielectric_function Sample.K Sample.junk
                 (Sample.dyn "born" (Some (Sample.charges 1))) Sample.sys 2
                 [0; 1]%float Sample.eval Sample.evec
                 (allocate3 Sample.junk 2 3 3) in
  get2 first.1 3 3 = Cplx 0.25 0
  /\ get2 (compute_dielectric_function Sample.K Sample.junk
             (Sample.dyn "born" (Some (Sample.charges 1))) Sample.sys 2
             [0; 1]%float Sample.eval first.1
             (allocate3 Sample.junk 2 3 3)).1 3 3 = Cplx 0.0625 0.
Proof.
  intros first.
  pose proof (C9_evec_normalized_in_place Sample.K Sample.junk
                (Sample.dyn "born" (Some (Sample.charges 1))) Sample.sys 2
                [0; 1]%float Sample.eval Sample.evec
                (allocate3 Sample.junk 2 3 3) (allocate3 Sample.junk 2 3 3)
                ltac:(shape) ltac:(shape) ltac:(shape)) as (H1 & H2 & _).
  split.
  - refine (eq_trans (H1 3 3 _ _) _); [simpl; lia|simpl; lia|reflexivity].
  - refine (eq_trans (H2 3 3 _ _) _); [simpl; lia|simpl; lia|reflexivity].
Defined.

(** ** The mode effective charges *)

Section ModeCharges.

Variable K : Constants.
Variable FC2 : Type.
Variable eval_k :
  Dynamical -> System -> list float -> FC2 -> list float * array2 complex.
Variable project_degenerate_eigenvectors :
  Dynamical -> array2 float -> FC2 -> list float -> array2 float -> array2 complex.
Variable setup_dielectric : Z -> Dynamical -> Dynamical.

Let charge := compute_mode_effective_charge K FC2 eval_k
                project_degenerate_eigenvectors setup_dielectric.
Let lazy := with_borncharge setup_dielectric 0.
Let solved := solved_evec FC2 eval_k project_degenerate_eigenvectors.

(** What a call of [compute_mode_effective_charge] returns when the Born
    charge file is configured. *)
Lemma compute_mode_effective_charge_spec (fc2_ext : FC2) dyn sys
    (zstar_mode : array2 float) do_normalize :
  file_born dyn <> "" ->
  dim2 (neval (lazy dyn)) (neval (lazy dyn)) (solved fc2_ext (lazy dyn) sys) ->
  dim2 (neval (lazy dyn)) 3 zstar_mode ->
  exists zm,
    charge fc2_ext dyn sys zstar_mode do_normalize = Done (lazy dyn, zm)
    /\ dim2 (neval (lazy dyn)) 3 zm
    /\ forall is_ i, is_ < neval (lazy dyn) -> i < 3 ->
         get2 zm is_ i
         = if do_normalize
           then Spec.zmode_normalized K (lazy dyn) sys
                  (solved fc2_ext (lazy dyn) sys) is_ i
           else Spec.zmode K (lazy dyn) sys (solved fc2_ext (lazy dyn) sys) is_ i.
Proof.
  intros Hfile Hev Hzm. subst charge. unfold compute_mode_effective_charge.
  rewrite bool_decide_eq_false_2 by exact Hfile.
  change (match borncharge dyn with
          | Some _ => dyn
          | None => setup_dielectric 0 dyn
          end) with (lazy dyn).
  set (dyn' := lazy dyn) in *. cbv zeta.
  change (match projection_directions dyn' with
          | [] => (eval_k dyn' sys [0%float; 0%float; 0%float] fc2_ext).2
          | _ :: _ =>
              project_degenerate_eigenvectors dyn' (lavec_p sys) fc2_ext
                [0%float; 0%float; 0%float] (projection_directions dyn')
          end) with (solved fc2_ext dyn' sys).
  set (evec := solved fc2_ext dyn' sys) in *.
  destruct (normalize_evec_amu_spec K (neval dyn') sys evec Hev) as (_ & Hnorm).
  destruct (mode_charges_spec (neval dyn') (zstar_of dyn')
              (normalize_evec_amu K (neval dyn') sys evec) do_normalize
              zstar_mode Hzm) as (Hdim & Hval).
  eexists. split; [reflexivity|]. split; [exact Hdim|].
  intros is_ i His Hi. rewrite Hval by assumption. cbv zeta.
  assert (Hz : fsum 0 (neval dyn') (fun j =>
                 get3 (zstar_of dyn') (j / 3) i (j mod 3)
                 * real (get2 (normalize_evec_amu K (neval dyn') sys evec) is_ j))%float
               = Spec.zmode K dyn' sys evec is_ i).
  { unfold Spec.zmode. apply fsum_ext. intros j Hj.
    rewrite Hnorm by lia. reflexivity. }
  assert (Hn : fsum 0 (neval dyn') (fun j =>
                 norm (get2 (normalize_evec_amu K (neval dyn') sys evec) is_ j))
               = Spec.evec_norm K dyn' sys evec is_).
  { unfold Spec.evec_norm. apply fsum_ext. intros j Hj.
    rewrite Hnorm by lia. reflexivity. }
  rewrite Hz, Hn. reflexivity.
Qed.

End ModeCharges.

Section ModeChargeClaims.

Variable K : Constants.
Variable FC2 : Type.
Variable eval_k :
  Dynamical -> System -> list float -> FC2 -> list float * array2 complex.
Variable project_degenerate_eigenvectors :
  Dynamical -> array2 float -> FC2 -> list float -> array2 float -> array2 complex.
Variable setup_dielectric : Z -> Dynamical -> Dynamical.

Let charge := compute_mode_effective_charge K FC2 eval_k
                project_degenerate_eigenvectors setup_dielectric.
Let lazy := with_borncharge setup_dielectric 0.
Let solved := solved_evec FC2 eval_k project_degenerate_eigenvectors.

(** C2: for every mode [is], the three acoustic ones included, and every
    direction [i], [compute_mode_effective_charge] divides the eigenvector
    components by [sqrt(mass / amu_ry)] (not by [sqrt(mass)] as the
    dielectric computation does), computes [zmode[is][i]] as the sum over [j]
    of [BornCharge[j/3][i][j mod 3] * Re(evec[is][j])] while it accumulates
    the norm, the sum over [j] of [|evec[is][j]|^2] (by whose square root the
    entry is divided when normalisation is requested), and returns the whole
    [ns]-by-3 table. *)
Theorem C2_mode_effective_charge_formula (fc2_ext : FC2) dyn sys
    (zstar_mode : array2 float) do_normalize :
  file_born dyn <> "" ->
  dim2 (neval (lazy dyn)) (neval (lazy dyn)) (solved fc2_ext (lazy dyn) sys) ->
  dim2 (neval (lazy dyn)) 3 zstar_mode ->
  let evec := solved fc2_ext (lazy dyn) sys in
  (forall is_ j,
     Spec.evec_normalized_amu K sys evec is_ j
     = cdiv_real (get2 evec is_ j) (PrimFloat.sqrt (mass_of sys j / amu_ry K)))
  /\ exists zm,
       charge fc2_ext dyn sys zstar_mode do_normalize = Done (lazy dyn, zm)
       /\ dim2 (neval (lazy dyn)) 3 zm
       /\ forall is_ i, is_ < neval (lazy dyn) -> i < 3 ->
            let z := fsum 0 (neval (lazy dyn)) (fun j =>
                       get3 (zstar_of (lazy dyn)) (j / 3) i (j mod 3)
                       * real (Spec.evec_normalized_amu K sys evec is_ j))%float in
            let normalization_factor :=
              fsum 0 (neval (lazy dyn)) (fun j =>
                norm (Spec.evec_normalized_amu K sys evec is_ j)) in
            get2 zm is_ i
            = if do_normalize
              then (z / PrimFloat.sqrt normalization_factor)%float
              else z.
Proof.
  intros Hfile Hev Hzm evec. split; [reflexivity|].
  destruct (compute_mode_effective_charge_spec K FC2 eval_k
              project_degenerate_eigenvectors setup_dielectric fc2_ext dyn sys
              zstar_mode do_normalize Hfile Hev Hzm) as (zm & Hrun & Hdim & Hval).
  exists zm. split; [exact Hrun|]. split; [exact Hdim|].
  intros is_ i His Hi. cbv zeta. rewrite (Hval is_ i His Hi). reflexivity.
Qed.

(** C4, as the code has it: when normalisation is requested, the entry
    [zmode[is][i]] is the projection of the Born charges on the mode divided
    by the square root of the norm of the mode's eigenvector, the sum over
    [j] of [|evec[is][j]|^2]; the sum over [i] of [zmode[is][i]^2] is not
    made 1. *)
Theorem C4_normalized_by_eigenvector_norm (fc2_ext : FC2) dyn sys
    (zstar_mode : array2 float) :
  file_born dyn <> "" ->
  dim2 (neval (lazy dyn)) (neval (lazy dyn)) (solved fc2_ext (lazy dyn) sys) ->
  dim2 (neval (lazy dyn)) 3 zstar_mode ->
  let evec := solved fc2_ext (lazy dyn) sys in
  exists zm,
    charge fc2_ext dyn sys zstar_mode true = Done (lazy dyn, zm)
    /\ forall is_ i, is_ < neval (lazy dyn) -> i < 3 ->
         get2 zm is_ i
         = (Spec.zmode K (lazy dyn) sys evec is_ i
            / PrimFloat.sqrt (Spec.evec_norm K (lazy dyn) sys evec is_))%float.
Proof.
  intros Hfile Hev Hzm evec.
  destruct (compute_mode_effective_charge_spec K FC2 eval_k
              project_degenerate_eigenvectors setup_dielectric fc2_ext dyn sys
              zstar_mode true Hfile Hev Hzm) as (zm & Hrun & _ & Hval).
  exists zm. split; [exact Hrun|]. exact Hval.
Qed.

(** C10: [get_zstar_mode] always calls [compute_mode_effective_charge] with
    normalisation disabled, on a fresh [ns]-by-3 table: what it returns is
    the table of the unnormalised mode effective charges, whatever the
    input. *)
Theorem C10_get_zstar_mode_unnormalized (fc2_ext : FC2) dyn sys :
  file_born dyn <> "" ->
  neval (lazy dyn) = neval dyn ->
  dim2 (neval dyn) (neval dyn) (solved fc2_ext (lazy dyn) sys) ->
  get_zstar_mode K FC2 eval_k project_degenerate_eigenvectors setup_dielectric
    fc2_ext dyn sys
  = charge fc2_ext dyn sys (replicate (neval dyn) (replicate 3 0%float)) false
  /\ exists zm,
       get_zstar_mode K FC2 eval_k project_degenerate_eigenvectors
         setup_dielectric fc2_ext dyn sys = Done (lazy dyn, zm)
       /\ dim2 (neval dyn) 3 zm
       /\ forall is_ i, is_ < neval dyn -> i < 3 ->
            get2 zm is_ i
            = Spec.zmode K (lazy dyn) sys (solved fc2_ext (lazy dyn) sys) is_ i.
Proof.
  intros Hfile Hns Hev. split; [reflexivity|].
  destruct (compute_mode_effective_charge_spec K FC2 eval_k
              project_degenerate_eigenvectors setup_dielectric fc2_ext dyn sys
              (replicate (neval dyn) (replicate 3 0%float)) false Hfile)
    as (zm & Hrun & Hdim & Hval).
  - fold lazy. rewrite Hns. exact Hev.
  - fold lazy. rewrite Hns. apply dim2_replicate.
  - exists zm. fold lazy in Hdim, Hval. rewrite Hns in Hdim, Hval.
    split; [exact Hrun|]. split; [exact Hdim|exact Hval].
Qed.

End ModeChargeClaims.

Lemma C2_mode_effective_charge_formula_witness :
  exists zm,
    compute_mode_effective_charge Sample.K unit Sample.eval_k
      Sample.project_degenerate_eigenvectors Sample.setup_dielectric tt
      (Sample.dyn "born" None) Sample.sys (replicate 6 (replicate 3 7%float)) true
    = Done (Sample.setup_dielectric 0 (Sample.dyn "born" None), zm)
    /\ dim2 6 3 zm.
Proof.
  destruct (C2_mode_effective_charge_formula Sample.K unit Sample.eval_k
              Sample.project_degenerate_eigenvectors Sample.setup_dielectric tt
              (Sample.dyn "born" None) Sample.sys
              (replicate 6 (replicate 3 7%float)) true)
    as (_ & zm & Hrun & Hdim & _); [discriminate|shape|shape|].
  exists zm. split; [exact Hrun|exact Hdim].
Defined.

Lemma C4_normalized_by_eigenvector_norm_witness :
  exists zm,
    compute_mode_effective_charge Sample.K unit Sample.eval_k
      Sample.project_degenerate_eigenvectors Sample.setup_dielectric tt
      (Sample.dyn "born" (Some (Sample.charges 2))) Sample.sys
      (replicate 6 (replicate 3 7%float)) true
    = Done (Sample.dyn "born" (Some (Sample.charges 2)), zm)
    /\ get2 zm 3 0 = (-2)%float.
Proof.
  destruct (C4_normalized_by_eigenvector_norm Sample.K unit Sample.eval_k
              Sample.project_degenerate_eigenvectors Sample.setup_dielectric tt
              (Sample.dyn "born" (Some (Sample.charges 2))) Sample.sys
              (replicate 6 (replicate 3 7%float)))
    as (zm & Hrun & Hval); [discriminate|shape|shape|].
  exists zm. split; [exact Hrun|].
  refine (eq_trans (Hval 3 0 _ _) _); [simpl; lia|lia|vm_compute; reflexivity].
Defined.

(** C4 fails as stated: with Born charges of magnitude 2 and unit
    eigenvectors, normalisation is requested, the norm of the eigenvector of
    mode 0 is 1, and the squares of its three normalised charges add up to 4. *)
Lemma C4_counterexample :
  exists zm,
    compute_mode_effective_charge Sample.K unit Sample.eval_k
      Sample.project_degenerate_eigenvectors Sample.setup_dielectric tt
      (Sample.dyn "born" (Some (Sample.charges 2))) Sample.sys
      (replicate 6 (replicate 3 0%float)) true
    = Done (Sample.dyn "born" (Some (Sample.charges 2)), zm)
    /\ Spec.evec_norm Sample.K (Sample.dyn "born" (Some (Sample.charges 2)))
         Sample.sys Sample.evec 0 = 1%float
    /\ fsum 0 3 (fun i => (get2 zm 0 i * get2 zm 0 i)%float) = 4%float
    /\ (4 =? 1)%float = false.
Proof.
  eexists. split; [vm_compute; reflexivity|].
  split; [vm_compute; reflexivity|].
  split; vm_compute; reflexivity.
Qed.

Lemma C10_get_zstar_mode_unnormalized_witness :
  exists zm,
    get_zstar_mode Sample.K unit Sample.eval_k
      Sample.project_degenerate_eigenvectors Sample.setup_dielectric tt
      (Sample.dyn "born" None) Sample.sys
    = Done (Sample.setup_dielectric 0 (Sample.dyn "born" None), zm)
    /\ get2 zm 3 0 = (-0.5)%float.
Proof.
  destruct (C10_get_zstar_mode_unnormalized Sample.K unit Sample.eval_k
              Sample.project_degenerate_eigenvectors Sample.setup_dielectric tt
              (Sample.dyn "born" None) Sample.sys)
    as (_ & zm & Hrun & _ & Hval); [discriminate|reflexivity|shape|].
  exists zm. split; [exact Hrun|].
  refine (eq_trans (Hval 3 0 _ _) _); [simpl; lia|lia|vm_compute; reflexivity].
Defined.

(** ** Determinism *)

(** C8: [compute_dielectric_function] and [compute_mode_effective_charge]
    are deterministic: two invocations with the same eigenvalues,
    eigenvectors, Born charges, masses, volume and grid produce the same
    tensor series and the same mode-charge table, whatever the fresh scratch
    storage and the output arrays held before. *)
Theorem C8_deterministic K FC2
    (eval_k : Dynamical -> System -> list float -> FC2 ->
              list float * array2 complex)
    (project_degenerate_eigenvectors :
       Dynamical -> array2 float -> FC2 -> list float -> array2 float ->
       array2 complex)
    (setup_dielectric : Z -> Dynamical -> Dynamical) dyn sys :
  (forall junk junk' nomega_in (omega_grid_in eval_in : list float)
          (evec_in : array2 complex) (dielec_out dielec_out' : array3 float),
     dim2 (neval dyn) (neval dyn) evec_in ->
     dim3 nomega_in 3 3 dielec_out ->
     dim3 nomega_in 3 3 dielec_out' ->
     compute_dielectric_function K junk dyn sys nomega_in omega_grid_in eval_in
       evec_in dielec_out
     = compute_dielectric_function K junk' dyn sys nomega_in omega_grid_in eval_in
         evec_in dielec_out')
  /\ (forall fc2_ext (zstar_mode zstar_mode' : array2 float) do_normalize,
        let dyn' := with_borncharge setup_dielectric 0 dyn in
        dim2 (neval dyn') (neval dyn')
          (solved_evec FC2 eval_k project_degenerate_eigenvectors fc2_ext dyn' sys) ->
        dim2 (neval dyn') 3 zstar_mode ->
        dim2 (neval dyn') 3 zstar_mode' ->
        compute_mode_effective_charge K FC2 eval_k
          project_degenerate_eigenvectors setup_dielectric fc2_ext dyn sys
          zstar_mode do_normalize
        = compute_mode_effective_charge K FC2 eval_k
            project_degenerate_eigenvectors setup_dielectric fc2_ext dyn sys
            zstar_mode' do_normalize).
Proof.
  split.
  - intros junk junk' nomega_in omega_grid_in eval_in evec_in d d' Hev Hd Hd'.
    destruct (compute_dielectric_function_spec K junk dyn sys nomega_in
                omega_grid_in eval_in evec_in d Hev Hd) as (_ & _ & Hout & Hval).
    destruct (compute_dielectric_function_spec K junk' dyn sys nomega_in
                omega_grid_in eval_in evec_in d' Hev Hd') as (_ & _ & Hout' & Hval').
    apply injective_projections; [reflexivity|].
    apply (array3_ext nomega_in 3 3); [exact Hout|exact Hout'|].
    intros k i j Hk Hi Hj. rewrite Hval, Hval' by assumption. reflexivity.
  - intros fc2_ext zm zm' b dyn' Hev Hzm Hzm'.
    destruct (decide (file_born dyn = "")) as [Hfile|Hfile].
    + unfold compute_mode_effective_charge.
      rewrite bool_decide_eq_true_2 by exact Hfile. reflexivity.
    + destruct (compute_mode_effective_charge_spec K FC2 eval_k
                  project_degenerate_eigenvectors setup_dielectric fc2_ext dyn
                  sys zm b Hfile Hev Hzm) as (r & -> & Hdim & Hval).
      destruct (compute_mode_effective_charge_spec K FC2 eval_k
                  project_degenerate_eigenvectors setup_dielectric fc2_ext dyn
                  sys zm' b Hfile Hev Hzm') as (r' & -> & Hdim' & Hval').
      do 2 f_equal. apply (array2_ext (neval dyn') 3); [exact Hdim|exact Hdim'|].
      intros is_ i His Hi. rewrite Hval, Hval' by assumption. reflexivity.
Qed.

Lemma C8_deterministic_witness :
  compute_dielectric_function Sample.K Sample.junk
    (Sample.dyn "born" (Some (Sample.charges 1))) Sample.sys 2 [0; 1]%float
    Sample.eval Sample.evec (allocate3 Sample.junk 2 3 3)
  = compute_dielectric_function Sample.K (fun _ => nan)
      (Sample.dyn "born" (Some (Sample.charges 1))) Sample.sys 2 [0; 1]%float
      Sample.eval Sample.evec (replicate 2 (replicate 3 (replicate 3 0%float))).
Proof.
  refine (proj1 (C8_deterministic Sample.K unit Sample.eval_k
            Sample.project_degenerate_eigenvectors Sample.setup_dielectric
            (Sample.dyn "born" (Some (Sample.charges 1))) Sample.sys)
            Sample.junk (fun _ => nan) 2 [0; 1]%float Sample.eval Sample.evec
            (allocate3 Sample.junk 2 3 3)
            (replicate 2 (replicate 3 (replicate 3 0%float))) _ _ _); shape.
Defined.

(** ** Zero Born charges *)

(** With zero charges the projection on a mode with finite components is
    [+0]. *)
Lemma projection_zero n (z : array3 float) (component : nat -> float) i :
  all_zero z ->
  (forall j, j < n -> Num.is_finite (component j) = true) ->
  fsum 0 n (fun j => get3 z (j / 3) i (j mod 3) * component j)%float = 0%float.
Proof.
  intros Hz Hfin. apply FloatFacts.fsum_zero. intros j Hj.
  apply FloatFacts.mul_zero_l; [apply Hz|apply Hfin; lia].
Qed.

(** C7, as the code has it: if every entry of every Born-charge tensor is
    zero, then the dielectric tensor computed by
    [compute_dielectric_function] is zero at every grid point where no
    optical mode sits on a pole (each [eval[is] - omega_conv^2], [is >= 3], is
    a number other than zero at that point, whatever happens at the other
    points), provided the mass-normalised eigenvector components of the
    optical modes and [8 pi / V] are finite; and every mode effective charge
    computed by [compute_mode_effective_charge] is zero for each mode whose
    mass-normalised components are finite and, when normalisation is
    requested, the square root of whose norm is a number other than zero. *)
Theorem C7_zero_born_charges K junk FC2
    (eval_k : Dynamical -> System -> list float -> FC2 ->
              list float * array2 complex)
    (project_degenerate_eigenvectors :
       Dynamical -> array2 float -> FC2 -> list float -> array2 float ->
       array2 complex)
    (setup_dielectric : Z -> Dynamical -> Dynamical) dyn sys :
  (forall nomega_in (omega_grid_in eval_in : list float)
          (evec_in : array2 complex) (dielec_out : array3 float),
     all_zero (zstar_of dyn) ->
     dim2 (neval dyn) (neval dyn) evec_in ->
     dim3 nomega_in 3 3 dielec_out ->
     (forall is_ j, 3 <= is_ < neval dyn -> j < neval dyn ->
        Num.is_finite (real (Spec.evec_normalized sys evec_in is_ j)) = true) ->
     Num.is_finite (8 * pi K / volume_p sys) = true ->
     forall iomega, iomega < nomega_in ->
       (forall is_, 3 <= is_ < neval dyn ->
          Num.is_nonzero_number
            (eval_in !!! is_ - Spec.omega_conv2 K (omega_grid_in !!! iomega))
          = true) ->
       forall i j, i < 3 -> j < 3 ->
         Num.is_zero
           (get3 (compute_dielectric_function K junk dyn sys nomega_in
                    omega_grid_in eval_in evec_in dielec_out).2 iomega i j)
         = true)
  /\ (forall fc2_ext (zstar_mode : array2 float) do_normalize,
        let dyn' := with_borncharge setup_dielectric 0 dyn in
        let evec :=
          solved_evec FC2 eval_k project_degenerate_eigenvectors fc2_ext dyn' sys in
        all_zero (zstar_of dyn') ->
        file_born dyn <> "" ->
        dim2 (neval dyn') (neval dyn') evec ->
        dim2 (neval dyn') 3 zstar_mode ->
        exists zm,
          compute_mode_effective_charge K FC2 eval_k
            project_degenerate_eigenvectors setup_dielectric fc2_ext dyn sys
            zstar_mode do_normalize = Done (dyn', zm)
          /\ forall is_, is_ < neval dyn' ->
               (forall j, j < neval dyn' ->
                  Num.is_finite
                    (real (Spec.evec_normalized_amu K sys evec is_ j)) = true) ->
               (do_normalize = true ->
                Num.is_nonzero_number
                  (PrimFloat.sqrt (Spec.evec_norm K dyn' sys evec is_)) = true) ->
               forall i, i < 3 -> Num.is_zero (get2 zm is_ i) = true).
Proof.
  split.
  - intros nomega_in omega_grid_in eval_in evec_in d Hz Hev Hd Hfin Hfac
           iomega Hio Hpole i j Hi Hj.
    destruct (compute_dielectric_function_spec K junk dyn sys nomega_in
                omega_grid_in eval_in evec_in d Hev Hd) as (_ & _ & _ & Hval).
    rewrite Hval by assumption. unfold Spec.dielec.
    apply FloatFacts.mul_zero_r; [exact Hfac|].
    rewrite FloatFacts.fsum_zero; [reflexivity|]. intros is_ His.
    apply FloatFacts.div_zero_l; [|apply Hpole; assumption].
    unfold Spec.s_born, Spec.zstar_u.
    rewrite !(projection_zero (neval dyn) (zstar_of dyn)
                (fun j => real (Spec.evec_normalized sys evec_in is_ j)));
      try assumption; try (intros k Hk; apply Hfin; lia).
    reflexivity.
  - intros fc2_ext zm b dyn' evec Hz Hfile Hev Hzm.
    destruct (compute_mode_effective_charge_spec K FC2 eval_k
                project_degenerate_eigenvectors setup_dielectric fc2_ext dyn
                sys zm b Hfile Hev Hzm) as (r & Hrun & _ & Hval).
    exists r. split; [exact Hrun|]. intros is_ His Hfin Hnorm i Hi.
    rewrite Hval by assumption. fold dyn'. fold evec.
    assert (H0 : Spec.zmode K dyn' sys evec is_ i = 0%float).
    { unfold Spec.zmode.
      apply (projection_zero (neval dyn') (zstar_of dyn')
               (fun j => real (Spec.evec_normalized_amu K sys evec is_ j)));
        [exact Hz|]. intros k Hk. apply Hfin; lia. }
    destruct b.
    + unfold Spec.zmode_normalized. rewrite H0.
      apply FloatFacts.div_zero_l; [reflexivity|]. apply Hnorm. reflexivity.
    + rewrite H0. reflexivity.
Qed.

Lemma all_zero_sample : all_zero (Sample.charges 0).
Proof.
  intros a i j. unfold Sample.charges.
  do 3 (destruct a as [|a]; [do 4 (destruct i as [|i];
                               [do 4 (destruct j as [|j]; [reflexivity|]);
                                reflexivity|]); reflexivity|]).
  reflexivity.
Qed.

(** On the grid [[0; 2]], whose second point sits on the pole of mode 3, the
    matrix of the first point is zero all the same. *)
Lemma C7_zero_born_charges_witness :
  Num.is_zero
    (get3 (compute_dielectric_function Sample.K Sample.junk
             (Sample.dyn "born" (Some (Sample.charges 0))) Sample.sys 2
             [0; 2]%float Sample.eval Sample.evec
             (allocate3 Sample.junk 2 3 3)).2 0 2 2) = true
  /\ exists zm,
       compute_mode_effective_charge Sample.K unit Sample.eval_k
         Sample.project_degenerate_eigenvectors Sample.setup_dielectric tt
         (Sample.dyn "born" (Some (Sample.charges 0))) Sample.sys
         (replicate 6 (replicate 3 7%float)) true
       = Done (Sample.dyn "born" (Some (Sample.charges 0)), zm)
       /\ Num.is_zero (get2 zm 3 0) = true.
Proof.
  destruct (C7_zero_born_charges Sample.K Sample.junk unit Sample.eval_k
              Sample.project_degenerate_eigenvectors Sample.setup_dielectric
              (Sample.dyn "born" (Some (Sample.charges 0))) Sample.sys)
    as (Hdielec & Hcharge).
  split.
  - refine (Hdielec 2 [0; 2]%float Sample.eval Sample.evec
              (allocate3 Sample.junk 2 3 3) all_zero_sample _ _ _ _ 0 _ _
              2 2 _ _); [shape|shape| | |lia| |lia|lia].
    + intros is_ j His Hj. simpl in His, Hj.
      do 6 (destruct is_ as [|is_];
            [do 6 (destruct j as [|j]; [vm_compute; reflexivity|]); lia|]).
      lia.
    + vm_compute. reflexivity.
    + intros is_ His. simpl in His.
      do 6 (destruct is_ as [|is_]; [try lia; vm_compute; reflexivity|]).
      lia.
  - destruct (Hcharge tt (replicate 6 (replicate 3 7%float)) true
                all_zero_sample ltac:(discriminate) ltac:(shape) ltac:(shape))
      as (zm & Hrun & Hzero).
    exists zm. split; [exact Hrun|].
    apply (Hzero 3); [simpl; lia| |intros _; vm_compute; reflexivity|lia].
    intros j Hj. simpl in Hj.
    do 6 (destruct j as [|j]; [vm_compute; reflexivity|]). lia.
Defined.

(** C7 fails as stated: all Born charges are zero, and the tensor entry at
    the grid frequency that sits on the pole of mode 3 ([eval[3]] is
    [omega_conv^2]) is [0/0], not a number. *)
Lemma C7_counterexample :
  all_zero (zstar_of (Sample.dyn "born" (Some (Sample.charges 0))))
  /\ Sample.eval !!! 3 = Spec.omega_conv2 Sample.K ([0; 2]%float !!! 1)
  /\ get3 (compute_dielectric_function Sample.K Sample.junk
             (Sample.dyn "born" (Some (Sample.charges 0))) Sample.sys 2
             [0; 2]%float Sample.eval Sample.evec
             (allocate3 Sample.junk 2 3 3)).2 1 0 0 = nan
  /\ Num.is_zero nan = false.
Proof.
  split; [exact all_zero_sample|].
  split; [vm_compute; reflexivity|].
  split; vm_compute; reflexivity.
Qed.

(** ** Set-up *)

Lemma mapM_Done_2 {A B} (f : A -> outcome B) l k :
  Forall2 (fun x y => f x = Done y) l k -> mapM f l = Done k.
Proof.
  induction 1 as [|x y l k Hxy _ IH]; [reflexivity|].
  simpl. rewrite Hxy. simpl. rewrite IH. reflexivity.
Qed.

Lemma mapM_Done_id {A} (f : A -> outcome A) l :
  Forall (fun x => f x = Done x) l -> mapM f l = Done l.
Proof.
  intros Hl. apply mapM_Done_2. induction Hl; constructor; assumption.
Qed.

(** The processes of a well-formed world, the root apart, do nothing before
    the broadcast. *)
Lemma init_root_others root others :
  ranked (root :: others) -> mapM init_root others = Done others.
Proof.
  intros Hr. apply mapM_Done_id. apply Forall_lookup_2. intros r p Hp.
  unfold init_root. rewrite (Hr (S r) p Hp). reflexivity.
Qed.

(** For a quotient that is not negative, truncation is the floor. *)
Lemma static_cast_int_floor (q : float) (n : Z) :
  Num.floor q = Some n -> (0 <= n < 2 ^ 31)%Z -> Num.static_cast_int q = Some n.
Proof.
  unfold Num.static_cast_int, Num.trunc, Num.floor. intros Hq Hn.
  destruct (Prim2SF q) as [s|s| |s m e]; try discriminate.
  - injection Hq as <-. reflexivity.
  - assert (Ht : (cond_Zopp s (if (0 <=? e)%Z then Z.pos m * 2 ^ e
                               else Z.pos m / 2 ^ (- e)) = n)%Z).
    { destruct s; simpl in *; [|congruence]. exfalso.
      injection Hq as Hq. destruct (0 <=? e)%Z eqn:He.
      - apply Z.leb_le in He.
        assert (0 < 2 ^ e)%Z by (apply Z.pow_pos_nonneg; lia). nia.
      - apply Z.leb_gt in He.
        assert (0 < 2 ^ (- e))%Z by (apply Z.pow_pos_nonneg; lia).
        assert (Z.neg m / 2 ^ (- e) < 0)%Z by (apply Z.div_lt_upper_bound; lia).
        lia. }
    rewrite Ht.
    replace ((- 2 ^ 31 <=? n)%Z && (n <? 2 ^ 31)%Z) with true; [reflexivity|].
    symmetry. apply andb_true_iff. split; [apply Z.leb_le|apply Z.ltb_lt]; lia.
Qed.

Lemma to_unsigned_small (n : Z) :
  (0 <= n < 2 ^ 31)%Z -> Num.to_unsigned n = n.
Proof.
  intros Hn. unfold Num.to_unsigned. apply Z.mod_small. lia.
Qed.

(** Lines 87-91 fill the grid with [emin + delta_e * i]. *)
Lemma fill_omega_grid_spec junk d :
  (nomega d < 2 ^ 31)%Z ->
  exists g,
    fill_omega_grid junk d = Done g
    /\ length g = Z.to_nat (nomega d)
    /\ forall i, i < Z.to_nat (nomega d) ->
         g !!! i = (emin d + delta_e d * Num.of_nat i)%float.
Proof.
  intros Hn. unfold fill_omega_grid.
  replace (nomega d <? 2 ^ 31)%Z with true by (symmetry; apply Z.ltb_lt, Hn).
  set (n := Z.to_nat (nomega d)).
  eexists. split; [reflexivity|].
  destruct (acts_loop (fun s : list float => length s = n)
              (fun s i => s !!! i) n (fun k x => x = k)
              (fun x _ => (emin d + delta_e d * Num.of_nat x)%float)
              (fun i g => <[i := (emin d + delta_e d * Num.of_nat i)%float]> g))
    with (s := allocate1 junk n) as (Hwf & Hin & _).
  - intros k Hk.
    apply (acts_upd (fun s : list float => length s = n)
             (fun s i => s !!! i) (fun s c v => <[c := v]> s)
             (fun c => c < n)).
    + intros s c v Hs Hc. apply list_lookup_total_insert_eq. lia.
    + intros s c x v Hx. apply list_lookup_total_insert_ne. congruence.
    + intros s c v Hs. rewrite length_insert. exact Hs.
    + exact Hk.
    + reflexivity.
  - intros k k' x _ _ -> ->. reflexivity.
  - unfold allocate1. rewrite length_map, length_seq. reflexivity.
  - split; [exact Hwf|]. intros i Hi. apply (Hin i). eauto.
Qed.

Lemma mapM_Done_Forall {A B} (f : A -> outcome B) (P : B -> Prop) l :
  Forall (fun x => exists y, f x = Done y /\ P y) l ->
  exists k, mapM f l = Done k /\ length k = length l /\ Forall P k.
Proof.
  induction 1 as [|x l (y & Hy & HP) _ (k & Hk & Hlen & HPk)].
  - exists []. repeat split. constructor.
  - exists (y :: k). simpl. rewrite Hy. simpl. rewrite Hk. simpl.
    repeat split; [congruence|]. constructor; assumption.
Qed.

(** Lines 79-98 on a process where the calculation is enabled. *)
Lemma init_local_enabled junk setup_dielectric p :
  calc_dielectric_constant (dielec_obj p) <> 0%Z ->
  (my_rank p = 0 -> file_born (dynamical p) <> "") ->
  (nomega (dielec_obj p) < 2 ^ 31)%Z ->
  exists p',
    init_local junk setup_dielectric p = Done p'
    /\ has_grid p' (nomega (dielec_obj p)) (emin (dielec_obj p))
         (delta_e (dielec_obj p)).
Proof.
  intros Hflag Hfile Hn. unfold init_local.
  replace (calc_dielectric_constant (dielec_obj p) =? 0)%Z with false
    by (symmetry; apply Z.eqb_neq, Hflag).
  replace ((my_rank p =? 0)%nat && bool_decide (file_born (dynamical p) = ""))
    with false.
  2:{ symmetry. apply andb_false_iff.
      destruct (decide (my_rank p = 0)) as [H0|H0].
      - right. apply bool_decide_eq_false_2, Hfile, H0.
      - left. apply Nat.eqb_neq, H0. }
  destruct (fill_omega_grid_spec junk (dielec_obj p) Hn) as (g & -> & Hlen & Hval).
  simpl. eexists. split; [reflexivity|]. split; [reflexivity|].
  exists g. simpl. split; [reflexivity|]. split; [exact Hlen|].
  intros i Hi. rewrite (Hval i Hi), (FloatFacts.mul_comm (Num.of_nat i)).
  reflexivity.
Qed.

(** Lines 66-77 in a well-formed world: the root derives the grid
    parameters and every process receives them. *)
Lemma init_before_local root others n :
  ranked (root :: others) ->
  Num.static_cast_int
    ((dos_emax (dos root) - dos_emin (dos root)) / dos_delta_e (dos root))
  = Some n ->
  exists root',
    mapM init_root (root :: others) = Done (root' :: others)
    /\ my_rank root' = 0 /\ dynamical root' = dynamical root
    /\ calc_dielectric_constant (dielec_obj root')
       = calc_dielectric_constant (dielec_obj root)
    /\ nomega (dielec_obj root') = Num.to_unsigned n
    /\ emin (dielec_obj root') = dos_emin (dos root)
    /\ delta_e (dielec_obj root') = dos_delta_e (dos root).
Proof.
  intros Hr Hcast. simpl mapM. rewrite (init_root_others root others Hr).
  unfold init_root. rewrite (Hr 0 root eq_refl). simpl. rewrite Hcast. simpl.
  eexists. split; [reflexivity|]. simpl. repeat split; reflexivity.
Qed.

(** C3, as the code has it: after [init] on a valid grid configuration
    (the calculation enabled, the Born-charge file configured, the quotient
    [(emax-emin)/delta_e] not negative and below 2^31), every process has
    [nomega = floor((emax-emin)/delta_e)] and a grid of [nomega] points with
    [omega[i] = emin + i*delta_e], evaluated in double precision, for every
    [i] in [[0, nomega)]. *)
Theorem C3_grid_after_init junk setup_dielectric root others n :
  ranked (root :: others) ->
  calc_dielectric_constant (dielec_obj root) <> 0%Z ->
  file_born (dynamical root) <> "" ->
  Num.floor
    ((dos_emax (dos root) - dos_emin (dos root)) / dos_delta_e (dos root))
  = Some n ->
  (0 <= n < 2 ^ 31)%Z ->
  exists world',
    init junk setup_dielectric (root :: others) = Done world'
    /\ length world' = length (root :: others)
    /\ forall r p, world' !! r = Some p ->
         has_grid p n (dos_emin (dos root)) (dos_delta_e (dos root)).
Proof.
  intros Hr Hflag Hfile Hfloor Hn.
  destruct (init_before_local root others n Hr
              (static_cast_int_floor _ n Hfloor Hn))
    as (root' & Hroot & Hrank & Hdyn & Hcalc & Hnom & Hemin & Hdelta).
  unfold init. rewrite Hroot. simpl.
  rewrite (to_unsigned_small n Hn) in Hnom.
  destruct (mapM_Done_Forall (init_local junk setup_dielectric)
              (fun p => has_grid p n (dos_emin (dos root))
                          (dos_delta_e (dos root)))
              (MPI_Bcast (dielec_obj root') <$> (root' :: others)))
    as (world' & Hrun & Hlen & Hall).
  - apply Forall_lookup_2. intros r x Hx.
    apply list_lookup_fmap_Some in Hx as (p & -> & Hp).
    destruct (init_local_enabled junk setup_dielectric
                (MPI_Bcast (dielec_obj root') p)) as (p' & Hrun & Hgrid).
    + simpl. rewrite Hcalc. exact Hflag.
    + simpl. intros H0. destruct r as [|r].
      * injection Hp as <-. rewrite Hdyn. exact Hfile.
      * pose proof (Hr (S r) p Hp). lia.
    + simpl. rewrite Hnom. lia.
    + exists p'. split; [exact Hrun|]. simpl in Hgrid.
      rewrite Hnom, Hemin, Hdelta in Hgrid. exact Hgrid.
  - exists world'. split; [exact Hrun|]. split.
    + rewrite Hlen, length_fmap. reflexivity.
    + intros r p Hp. exact (Forall_lookup_1 _ _ _ _ Hall Hp).
Qed.

Lemma ranked_two p q : my_rank p = 0 -> my_rank q = 1 -> ranked [p; q].
Proof.
  intros Hp Hq [|[|r]] x Hx; simpl in Hx; try discriminate;
    injection Hx as <-; assumption.
Qed.

Lemma ranked_one p : my_rank p = 0 -> ranked [p].
Proof.
  intros Hp [|r] x Hx; simpl in Hx; try discriminate.
  injection Hx as <-. assumption.
Qed.

Lemma C3_grid_after_init_witness :
  exists world',
    init Sample.junk Sample.setup_dielectric
      [Sample.process 0 1 "born" 0 10.5 2; Sample.process 1 0 "born" 5 7 3]
    = Done world'
    /\ forall r p, world' !! r = Some p -> has_grid p 5 0 2.
Proof.
  destruct (C3_grid_after_init Sample.junk Sample.setup_dielectric
              (Sample.process 0 1 "born" 0 10.5 2)
              [Sample.process 1 0 "born" 5 7 3] 5)
    as (world' & Hrun & _ & Hgrid);
    [apply ranked_two; reflexivity|discriminate|discriminate
    |vm_compute; reflexivity|lia|].
  exists world'. split; [exact Hrun|exact Hgrid].
Defined.

(** C3 fails as stated: the grid from 1e16 to 1e16 + 4 in steps of 1 is
    valid (the bounds are ordered, the spacing is positive, [nomega] is the
    floor 4), and its first two points are equal, because 1e16 + 1 rounds to
    1e16 in double precision: the sequence is not strictly increasing and its
    spacing is not uniform. *)
Lemma C3_counterexample :
  exists p,
    init Sample.junk Sample.setup_dielectric
      [Sample.process 0 1 "born" 1e16 10000000000000004 1] = Done [p]
    /\ (1e16 <? 10000000000000004)%float = true
    /\ (0 <? 1)%float = true
    /\ Num.floor ((10000000000000004 - 1e16) / 1) = Some 4%Z
    /\ nomega (dielec_obj p) = 4%Z
    /\ omega_grid (dielec_obj p)
       = Some [1e16; 1e16; 10000000000000002; 10000000000000004]%float
    /\ strictly_increasing
         [1e16; 1e16; 10000000000000002; 10000000000000004]%float = false.
Proof.
  eexists. split; [vm_compute; reflexivity|].
  repeat split; vm_compute; reflexivity.
Qed.

Lemma init_local_unconfigured junk setup_dielectric p :
  calc_dielectric_constant (dielec_obj p) <> 0%Z ->
  my_rank p = 0 ->
  file_born (dynamical p) = "" ->
  init_local junk setup_dielectric p
  = ExitAll "Dielec::init()" "BORNINFO must be set when DIELEC = 1.".
Proof.
  intros Hflag Hrank Hfile. unfold init_local.
  replace (calc_dielectric_constant (dielec_obj p) =? 0)%Z with false
    by (symmetry; apply Z.eqb_neq, Hflag).
  rewrite Hrank, bool_decide_eq_true_2 by exact Hfile. reflexivity.
Qed.

(** *** The statement lists and the functions *)

Lemma finish_nil {L S} (s : S) :
  finish (run_steps ([] : list (L * (S -> outcome S))) s) = Done s.
Proof. reflexivity. Qed.

Lemma finish_cons {L S} (l : L) (f : S -> outcome S) rest (s : S) :
  finish (run_steps ((l, f) :: rest) s)
  = (s' ← f s; finish (run_steps rest s')).
Proof. cbn [run_steps]. destruct (f s); reflexivity. Qed.

(** A run that ends in [exitall] at its first statement has completed
    nothing and changed nothing; a first statement that completes is
    followed by the run of the rest. *)
Lemma run_steps_exit {L S} (l : L) (f : S -> outcome S) rest (s : S) file msg :
  f s = ExitAll file msg ->
  run_steps ((l, f) :: rest) s = Run [] s (ExitAll file msg).
Proof. intros H. cbn [run_steps]. rewrite H. reflexivity. Qed.

Lemma run_steps_done {L S} (l : L) (f : S -> outcome S) rest (s s' : S) :
  f s = Done s' ->
  run_steps ((l, f) :: rest) s
  = Run (l :: executed (run_steps rest s')) (at_end (run_steps rest s'))
      (result (run_steps rest s')).
Proof. intros H. cbn [run_steps]. rewrite H. reflexivity. Qed.

(** The statement list of [init] gives what [init_root], the broadcast and
    [init_local] give in a row. *)
Lemma finish_init_statements junk setup_dielectric sent p :
  finish (run_steps (init_statements junk setup_dielectric sent) p)
  = (p1 ← init_root p;
     init_local junk setup_dielectric
       (MPI_Bcast (if (my_rank p1 =? 0)%nat then dielec_obj p1 else sent) p1)).
Proof.
  unfold init_statements. rewrite finish_cons.
  destruct (init_root p) as [p1| |]; [|reflexivity..].
  cbn [mbind outcome_bind]. rewrite finish_cons. unfold broadcast at 1.
  cbn [mbind outcome_bind]. set (q := MPI_Bcast _ p1).
  rewrite finish_cons. unfold check_born_file, init_local.
  destruct (negb (calc_dielectric_constant (dielec_obj q) =? 0)%Z) eqn:Hflag.
  - destruct ((my_rank q =? 0)%nat && bool_decide (file_born (dynamical q) = ""));
      [reflexivity|].
    cbn [mbind outcome_bind]. rewrite finish_cons. unfold fill_grid.
    rewrite Hflag.
    destruct (fill_omega_grid junk (dielec_obj q)) as [g| |]; [|reflexivity..].
    cbn [mbind outcome_bind]. rewrite finish_cons. unfold setup_born.
    cbn [dielec_obj calc_dielectric_constant]. rewrite Hflag. reflexivity.
  - cbn [mbind outcome_bind]. rewrite finish_cons. unfold fill_grid.
    rewrite Hflag. cbn [mbind outcome_bind]. rewrite finish_cons.
    unfold setup_born. rewrite Hflag. reflexivity.
Qed.

Lemma init_root_rank p p1 : init_root p = Done p1 -> my_rank p1 = my_rank p.
Proof.
  unfold init_root. destruct (my_rank p =? 0)%nat.
  - destruct (Num.static_cast_int _); [|discriminate].
    intros H. injection H as <-. reflexivity.
  - intros H. injection H as <-. reflexivity.
Qed.

(** [init] on a well-formed world is the statement list run by every
    process, each with the members of rank 0 as what it receives. *)
Lemma init_by_statements junk setup_dielectric root root' others :
  ranked (root :: others) ->
  init_root root = Done root' ->
  init junk setup_dielectric (root :: others)
  = mapM (fun p =>
            finish (run_steps
                      (init_statements junk setup_dielectric (dielec_obj root'))
                      p))
      (root :: others).
Proof.
  intros Hr Hroot. unfold init. cbn [mapM]. rewrite Hroot.
  rewrite (init_root_others root others Hr). cbn [mbind outcome_bind mret outcome_ret].
  cbn [map mapM]. rewrite finish_init_statements, Hroot.
  cbn [mbind outcome_bind].
  rewrite (init_root_rank root root' Hroot), (Hr 0 root eq_refl). cbn [Nat.eqb].
  f_equal.
  assert (Hothers : Forall (fun p => my_rank p <> 0) others).
  { apply Forall_lookup_2. intros r p Hp. rewrite (Hr (S r) p Hp). discriminate. }
  clear Hr Hroot. induction Hothers as [|p rest Hp _ IH]; [reflexivity|].
  cbn [map mapM]. rewrite IH, finish_init_statements.
  unfold init_root.
  replace (my_rank p =? 0)%nat with false by (symmetry; apply Nat.eqb_neq, Hp).
  cbn [mbind outcome_bind].
  replace (my_rank p =? 0)%nat with false by (symmetry; apply Nat.eqb_neq, Hp).
  reflexivity.
Qed.

(** The statement list of [compute_mode_effective_charge] gives what the
    function gives, whatever its local array held before. *)
Lemma finish_charge_statements K FC2
    (eval_k : Dynamical -> System -> list float -> FC2 ->
              list float * array2 complex)
    (project_degenerate_eigenvectors :
       Dynamical -> array2 float -> FC2 -> list float -> array2 float ->
       array2 complex)
    (setup_dielectric : Z -> Dynamical -> Dynamical)
    (fc2_ext : FC2) sys do_normalize (s : charge_state) :
  (fun s' => (cs_dynamical s', cs_zstar_mode s'))
    <$> finish (run_steps
                  (charge_statements K FC2 eval_k project_degenerate_eigenvectors
                     setup_dielectric fc2_ext sys do_normalize) s)
  = compute_mode_effective_charge K FC2 eval_k project_degenerate_eigenvectors
      setup_dielectric fc2_ext (cs_dynamical s) sys (cs_zstar_mode s)
      do_normalize.
Proof.
  unfold charge_statements, compute_mode_effective_charge.
  rewrite finish_cons.
  destruct (bool_decide (file_born (cs_dynamical s) = "")); reflexivity.
Qed.

(** What rank 0 has done when the check of [init] is reached: the grid
    scalars are derived and broadcast, nothing else is touched. *)
Lemma init_until_check sent root n
    (rest : list (init_statement * (PHON -> outcome PHON))) :
  my_rank root = 0 ->
  Num.static_cast_int (grid_quotient root) = Some n ->
  exists root',
    run_steps ((Derive, init_root) :: (Broadcast, broadcast sent) :: rest) root
    = Run (Derive :: Broadcast :: executed (run_steps rest root'))
        (at_end (run_steps rest root')) (result (run_steps rest root'))
    /\ init_frame root root' /\ dynamical root' = dynamical root
    /\ omega_grid (dielec_obj root') = omega_grid (dielec_obj root)
    /\ received root n root'.
Proof.
  intros Hrank Hcast. unfold grid_quotient in Hcast.
  eexists. split.
  - erewrite run_steps_done.
    2:{ unfold init_root. rewrite Hrank. cbn [Nat.eqb]. rewrite Hcast.
        reflexivity. }
    erewrite run_steps_done by (unfold broadcast; reflexivity).
    cbn [executed at_end result]. reflexivity.
  - unfold init_frame, received. cbn. rewrite Hrank. repeat split; reflexivity.
Qed.

(** C6, as the code has it: if the Born-charge file is not configured,
    [compute_mode_effective_charge] makes the check before any other work
    and ends in [exitall], with the name of the failing operation and the
    message "BORNINFO must be set when DIELEC = 1.", having completed no
    statement and changed nothing. [init], when the calculation is enabled,
    makes the check on the process of rank 0 only, and only after that
    process has derived the grid scalars (the quotient must convert to
    [int]) and the broadcasts have completed: it ends in [exitall] with its
    name and the same message after these two statements, the scalars
    holding their new values, before any grid is allocated or filled and
    before the Born charges are set up. A process of another rank makes no
    check: left to itself it goes on to fill its grid and to set up the Born
    charges, whatever its file name is. Nothing is run after [exitall]. *)
Theorem C6_missing_born_source_exits K junk FC2
    (eval_k : Dynamical -> System -> list float -> FC2 ->
              list float * array2 complex)
    (project_degenerate_eigenvectors :
       Dynamical -> array2 float -> FC2 -> list float -> array2 float ->
       array2 complex)
    (setup_dielectric : Z -> Dynamical -> Dynamical) :
  (forall root others n sent,
     ranked (root :: others) ->
     calc_dielectric_constant (dielec_obj root) <> 0%Z ->
     file_born (dynamical root) = "" ->
     Num.static_cast_int
       ((dos_emax (dos root) - dos_emin (dos root)) / dos_delta_e (dos root))
     = Some n ->
     init junk setup_dielectric (root :: others)
     = ExitAll "Dielec::init()" "BORNINFO must be set when DIELEC = 1."
     /\ exists root',
          run_steps (init_statements junk setup_dielectric sent) root
          = Run [Derive; Broadcast] root'
              (ExitAll "Dielec::init()" "BORNINFO must be set when DIELEC = 1.")
          /\ init_frame root root'
          /\ dynamical root' = dynamical root
          /\ omega_grid (dielec_obj root') = omega_grid (dielec_obj root)
          /\ received root n root')
  /\ (forall fc2_ext sys do_normalize (s : charge_state),
        file_born (cs_dynamical s) = "" ->
        compute_mode_effective_charge K FC2 eval_k
          project_degenerate_eigenvectors setup_dielectric fc2_ext
          (cs_dynamical s) sys (cs_zstar_mode s) do_normalize
        = ExitAll "Dielec::compute_mode_effective_charge()"
            "BORNINFO must be set when DIELEC = 1."
        /\ run_steps
             (charge_statements K FC2 eval_k project_degenerate_eigenvectors
                setup_dielectric fc2_ext sys do_normalize) s
           = Run [] s
               (ExitAll "Dielec::compute_mode_effective_charge()"
                  "BORNINFO must be set when DIELEC = 1."))
  /\ (forall p sent,
        my_rank p <> 0 ->
        calc_dielectric_constant sent <> 0%Z ->
        (nomega sent < 2 ^ 31)%Z ->
        exists p',
          run_steps (init_statements junk setup_dielectric sent) p
          = Run [Derive; Broadcast; CheckBornFile; FillGrid; SetupBorn] p'
              (Done tt)
          /\ has_grid p' (nomega sent) (emin sent) (delta_e sent)
          /\ dynamical p' = with_borncharge setup_dielectric 1 (dynamical p)).
Proof.
  split; [|split].
  - intros root others n sent Hr Hflag Hfile Hcast. split.
    + destruct (init_before_local root others n Hr Hcast)
        as (root' & Hroot & Hrank & Hdyn & Hcalc & _).
      unfold init. rewrite Hroot.
      change (mapM (init_local junk setup_dielectric)
                (MPI_Bcast (dielec_obj root') root'
                 :: map (MPI_Bcast (dielec_obj root')) others)
              = ExitAll "Dielec::init()" "BORNINFO must be set when DIELEC = 1.").
      simpl mapM.
      rewrite (init_local_unconfigured junk setup_dielectric
                 (MPI_Bcast (dielec_obj root') root')).
      * reflexivity.
      * simpl. rewrite Hcalc. exact Hflag.
      * exact Hrank.
      * simpl. rewrite Hdyn. exact Hfile.
    + destruct (init_until_check sent root n
                  [(CheckBornFile, check_born_file);
                   (FillGrid, fill_grid junk);
                   (SetupBorn, setup_born setup_dielectric)]
                  (Hr 0 root eq_refl) Hcast)
        as (root' & Hrun & Hframe & Hdyn & Hgrid & Hrecv).
      exists root'. split; [|repeat split; try assumption; apply Hframe || apply Hrecv].
      unfold init_statements. rewrite Hrun.
      rewrite (run_steps_exit CheckBornFile check_born_file _ root'
                 "Dielec::init()" "BORNINFO must be set when DIELEC = 1.");
        [reflexivity|].
      unfold check_born_file.
      destruct Hframe as (Hrank & _). destruct Hrecv as (Hcalc & _).
      rewrite Hcalc, Hrank, (Hr 0 root eq_refl), Hdyn.
      replace (calc_dielectric_constant (dielec_obj root) =? 0)%Z with false
        by (symmetry; apply Z.eqb_neq, Hflag).
      rewrite bool_decide_eq_true_2 by exact Hfile. reflexivity.
  - intros fc2_ext sys b s Hfile. split.
    + unfold compute_mode_effective_charge.
      rewrite bool_decide_eq_true_2 by exact Hfile. reflexivity.
    + unfold charge_statements. apply run_steps_exit.
      rewrite bool_decide_eq_true_2 by exact Hfile. reflexivity.
  - intros p sent Hrank Hflag Hn.
    assert (Hnot0 : (my_rank p =? 0)%nat = false) by (apply Nat.eqb_neq, Hrank).
    assert (Hon : negb (calc_dielectric_constant sent =? 0)%Z = true).
    { apply negb_true_iff, Z.eqb_neq, Hflag. }
    destruct (fill_omega_grid_spec junk sent Hn) as (g & Hfill & Hlen & Hval).
    eexists. split.
    + unfold init_statements.
      erewrite run_steps_done by (unfold init_root; rewrite Hnot0; reflexivity).
      erewrite run_steps_done by (unfold broadcast; rewrite Hnot0; reflexivity).
      erewrite run_steps_done.
      2:{ unfold check_born_file. cbn [MPI_Bcast dielec_obj
            calc_dielectric_constant my_rank]. rewrite Hon, Hnot0. reflexivity. }
      erewrite run_steps_done.
      2:{ unfold fill_grid. cbn [MPI_Bcast dielec_obj calc_dielectric_constant].
          rewrite Hon. unfold fill_omega_grid in Hfill |- *.
          cbn [nomega emin delta_e]. rewrite Hfill. reflexivity. }
      erewrite run_steps_done.
      2:{ unfold setup_born. cbn [dielec_obj calc_dielectric_constant].
          rewrite Hon. reflexivity. }
      cbn [run_steps executed at_end result]. reflexivity.
    + split; [|reflexivity]. split; [reflexivity|].
      exists g. cbn. split; [reflexivity|]. split; [exact Hlen|].
      intros i Hi. rewrite (Hval i Hi), (FloatFacts.mul_comm (Num.of_nat i)).
      reflexivity.
Qed.

Lemma C6_missing_born_source_exits_witness :
  (init Sample.junk Sample.setup_dielectric
     [Sample.process 0 1 "" 0 10.5 2; Sample.process 1 0 "" 5 7 3]
   = ExitAll "Dielec::init()" "BORNINFO must be set when DIELEC = 1."
   /\ exists root',
        run_steps
          (init_statements Sample.junk Sample.setup_dielectric
             set_default_variables)
          (Sample.process 0 1 "" 0 10.5 2)
        = Run [Derive; Broadcast] root'
            (ExitAll "Dielec::init()" "BORNINFO must be set when DIELEC = 1.")
        /\ omega_grid (dielec_obj root') = None
        /\ nomega (dielec_obj root') = 5%Z)
  /\ (compute_mode_effective_charge Sample.K unit Sample.eval_k
        Sample.project_degenerate_eigenvectors Sample.setup_dielectric tt
        (Sample.dyn "" None) Sample.sys (replicate 6 (replicate 3 0%float)) false
      = ExitAll "Dielec::compute_mode_effective_charge()"
          "BORNINFO must be set when DIELEC = 1."
      /\ run_steps
           (charge_statements Sample.K unit Sample.eval_k
              Sample.project_degenerate_eigenvectors Sample.setup_dielectric
              tt Sample.sys false)
           {| cs_dynamical := Sample.dyn "" None; cs_evec := [];
              cs_zstar_mode := replicate 6 (replicate 3 0%float) |}
         = Run []
             {| cs_dynamical := Sample.dyn "" None; cs_evec := [];
                cs_zstar_mode := replicate 6 (replicate 3 0%float) |}
             (ExitAll "Dielec::compute_mode_effective_charge()"
                "BORNINFO must be set when DIELEC = 1."))
  /\ exists p',
       run_steps
         (init_statements Sample.junk Sample.setup_dielectric
            {| calc_dielectric_constant := 1; dielec := None;
               omega_grid := None; emin := 0; emax := 10.5; delta_e := 2;
               nomega := 5 |})
         (Sample.process 1 0 "" 5 7 3)
       = Run [Derive; Broadcast; CheckBornFile; FillGrid; SetupBorn] p'
           (Done tt)
       /\ nomega (dielec_obj p') = 5%Z.
Proof.
  destruct (C6_missing_born_source_exits Sample.K Sample.junk unit Sample.eval_k
              Sample.project_degenerate_eigenvectors Sample.setup_dielectric)
    as (Hinit & Hcharge & Hother).
  split; [|split].
  - destruct (Hinit (Sample.process 0 1 "" 0 10.5 2)
                [Sample.process 1 0 "" 5 7 3] 5%Z set_default_variables)
      as (Hexit & root' & Hrun & _ & _ & Hgrid & _ & Hnomega & _);
      [apply ranked_two; reflexivity|discriminate|reflexivity
      |vm_compute; reflexivity|].
    split; [exact Hexit|]. exists root'.
    split; [exact Hrun|]. split; [exact Hgrid|exact Hnomega].
  - apply (Hcharge tt Sample.sys false
             {| cs_dynamical := Sample.dyn "" None; cs_evec := [];
                cs_zstar_mode := replicate 6 (replicate 3 0%float) |}).
    reflexivity.
  - destruct (Hother (Sample.process 1 0 "" 5 7 3)
                {| calc_dielectric_constant := 1; dielec := None;
                   omega_grid := None; emin := 0; emax := 10.5; delta_e := 2;
                   nomega := 5 |})
      as (p' & Hrun & (Hnomega & _) & _); [discriminate|discriminate|reflexivity|].
    exists p'. split; [exact Hrun|exact Hnomega].
Defined.

(** C6 fails as stated for [init]: the Born-charge file is not configured
    and the calculation is enabled, and when [init] ends in [exitall] the
    process of rank 0 has completed two statements and its members are no
    longer what they were: [nomega] is 5 where it was 1, [emax] is 10.5
    where it was 1. *)
Lemma C6_counterexample :
  file_born (dynamical (Sample.process 0 1 "" 0 10.5 2)) = ""
  /\ calc_dielectric_constant (dielec_obj (Sample.process 0 1 "" 0 10.5 2))
     = 1%Z
  /\ nomega (dielec_obj (Sample.process 0 1 "" 0 10.5 2)) = 1%Z
  /\ emax (dielec_obj (Sample.process 0 1 "" 0 10.5 2)) = 1%float
  /\ exists root',
       run_steps
         (init_statements Sample.junk Sample.setup_dielectric
            set_default_variables)
         (Sample.process 0 1 "" 0 10.5 2)
       = Run [Derive; Broadcast] root'
           (ExitAll "Dielec::init()" "BORNINFO must be set when DIELEC = 1.")
       /\ nomega (dielec_obj root') = 5%Z
       /\ emax (dielec_obj root') = 10.5%float
       /\ root' <> Sample.process 0 1 "" 0 10.5 2.
Proof.
  do 4 (split; [reflexivity|]).
  eexists. split; [vm_compute; reflexivity|].
  split; [reflexivity|]. split; [reflexivity|].
  intros H. apply (f_equal (fun p => nomega (dielec_obj p))) in H.
  vm_compute in H. discriminate H.
Qed.

(** * Further properties of the code *)

(** ** Set-up, process by process *)

Lemma mapM_fmap_Done_Forall2 {A B C} (g : A -> B) (f : B -> outcome C)
    (R : A -> C -> Prop) l :
  (forall i x, l !! i = Some x -> exists y, f (g x) = Done y /\ R x y) ->
  exists k, mapM f (g <$> l) = Done k /\ Forall2 R l k.
Proof.
  intros Hl.
  assert (Hk : exists k, Forall2 (fun x y => f (g x) = Done y /\ R x y) l k).
  { induction l as [|x l IH].
    - exists []. constructor.
    - destruct (Hl 0 x eq_refl) as (y & Hy).
      destruct IH as (k & Hk).
      { intros i x' Hx'. apply (Hl (S i) x' Hx'). }
      exists (y :: k). constructor; assumption. }
  destruct Hk as (k & Hk). exists k. split.
  - apply mapM_Done_2, Forall2_fmap_l.
    apply (Forall2_impl _ _ _ _ Hk). intros x y [Hy _]. exact Hy.
  - apply (Forall2_impl _ _ _ _ Hk). intros x y [_ HR]. exact HR.
Qed.

(** Lines 66-77: in a well-formed world whose quotient converts to [int],
    [init] is the rest of [init] (lines 79-98) run by every process on what
    it received. *)
Lemma init_after_broadcast junk setup_dielectric root others n :
  ranked (root :: others) ->
  Num.static_cast_int (grid_quotient root) = Some n ->
  exists d,
    init junk setup_dielectric (root :: others)
    = mapM (init_local junk setup_dielectric)
        (MPI_Bcast d <$> (root :: others))
    /\ calc_dielectric_constant d = calc_dielectric_constant (dielec_obj root)
    /\ nomega d = Num.to_unsigned n
    /\ emin d = dos_emin (dos root)
    /\ emax d = dos_emax (dos root)
    /\ delta_e d = dos_delta_e (dos root).
Proof.
  intros Hr Hcast. unfold init. simpl mapM.
  rewrite (init_root_others root others Hr).
  unfold init_root. destruct (Nat.eqb_spec (my_rank root) 0) as [_|Hne].
  2:{ exfalso. apply Hne, (Hr 0 root eq_refl). }
  unfold grid_quotient in Hcast. rewrite Hcast.
  eexists. split; [reflexivity|]. simpl. repeat split; reflexivity.
Qed.

(** [init] with the calculation disabled: every process receives the flag and
    the grid scalars of the root (its own are overwritten), [nomega] being the
    converted quotient modulo 2^32; no grid is allocated, no Born charge is
    set up, and an unconfigured Born-charge file is no error. *)
Theorem init_disabled junk setup_dielectric root others n :
  ranked (root :: others) ->
  calc_dielectric_constant (dielec_obj root) = 0%Z ->
  Num.static_cast_int (grid_quotient root) = Some n ->
  exists world',
    init junk setup_dielectric (root :: others) = Done world'
    /\ Forall2 (fun p p' =>
                  init_frame p p'
                  /\ dynamical p' = dynamical p
                  /\ received root n p'
                  /\ get_omega_grid (dielec_obj p')
                     = (omega_grid (dielec_obj p), (n mod 2 ^ 32)%Z))
         (root :: others) world'.
Proof.
  intros Hr Hflag Hcast.
  destruct (init_after_broadcast junk setup_dielectric root others n Hr Hcast)
    as (d & -> & Hcalc & Hnom & Hemin & Hemax & Hdelta).
  apply mapM_fmap_Done_Forall2. intros i p Hp.
  exists (MPI_Bcast d p). split.
  - unfold init_local. simpl. rewrite Hcalc, Hflag. reflexivity.
  - unfold init_frame, received, get_omega_grid. simpl.
    rewrite Hnom. repeat split; assumption.
Qed.

Lemma init_disabled_witness :
  exists world',
    init Sample.junk Sample.setup_dielectric
      [Sample.process 0 0 "" 10 0 2; Sample.process 1 0 "" 5 7 3] = Done world'
    /\ Forall2 (fun p p' =>
                  init_frame p p'
                  /\ dynamical p' = dynamical p
                  /\ received (Sample.process 0 0 "" 10 0 2) (-5) p'
                  /\ get_omega_grid (dielec_obj p')
                     = (omega_grid (dielec_obj p), 4294967291%Z))
         [Sample.process 0 0 "" 10 0 2; Sample.process 1 0 "" 5 7 3] world'.
Proof.
  apply (init_disabled Sample.junk Sample.setup_dielectric
           (Sample.process 0 0 "" 10 0 2) [Sample.process 1 0 "" 5 7 3] (-5)%Z);
    [apply ranked_two; reflexivity|reflexivity|vm_compute; reflexivity].
Defined.

(** Lines 79-98 on a process where the calculation is enabled: what is left
    alone, what is set up and what is filled. *)
Lemma init_local_enabled_run junk setup_dielectric p :
  calc_dielectric_constant (dielec_obj p) <> 0%Z ->
  (my_rank p = 0 -> file_born (dynamical p) <> "") ->
  (nomega (dielec_obj p) < 2 ^ 31)%Z ->
  exists p',
    init_local junk setup_dielectric p = Done p'
    /\ init_frame p p'
    /\ dynamical p' = with_borncharge setup_dielectric 1 (dynamical p)
    /\ calc_dielectric_constant (dielec_obj p')
       = calc_dielectric_constant (dielec_obj p)
    /\ emin (dielec_obj p') = emin (dielec_obj p)
    /\ emax (dielec_obj p') = emax (dielec_obj p)
    /\ delta_e (dielec_obj p') = delta_e (dielec_obj p)
    /\ has_grid p' (nomega (dielec_obj p)) (emin (dielec_obj p))
         (delta_e (dielec_obj p)).
Proof.
  intros Hflag Hfile Hn. unfold init_local.
  replace (calc_dielectric_constant (dielec_obj p) =? 0)%Z with false
    by (symmetry; apply Z.eqb_neq, Hflag).
  replace ((my_rank p =? 0)%nat && bool_decide (file_born (dynamical p) = ""))
    with false.
  2:{ symmetry. apply andb_false_iff.
      destruct (decide (my_rank p = 0)) as [H0|H0].
      - right. apply bool_decide_eq_false_2, Hfile, H0.
      - left. apply Nat.eqb_neq, H0. }
  destruct (fill_omega_grid_spec junk (dielec_obj p) Hn) as (g & -> & Hlen & Hval).
  simpl. eexists. split; [reflexivity|].
  split; [repeat split|]. do 5 (split; [reflexivity|]). split; [reflexivity|].
  exists g. simpl. split; [reflexivity|]. split; [exact Hlen|].
  intros i Hi. rewrite (Hval i Hi), (FloatFacts.mul_comm (Num.of_nat i)).
  reflexivity.
Qed.

(** [init] with the calculation enabled, process by process. *)
Lemma init_enabled_run junk setup_dielectric root others n :
  ranked (root :: others) ->
  calc_dielectric_constant (dielec_obj root) <> 0%Z ->
  file_born (dynamical root) <> "" ->
  Num.floor (grid_quotient root) = Some n ->
  (0 <= n < 2 ^ 31)%Z ->
  exists world',
    init junk setup_dielectric (root :: others) = Done world'
    /\ Forall2 (fun p p' =>
                  init_frame p p'
                  /\ dynamical p' = with_borncharge setup_dielectric 1 (dynamical p)
                  /\ received root n p'
                  /\ has_grid p' n (dos_emin (dos root)) (dos_delta_e (dos root)))
         (root :: others) world'.
Proof.
  intros Hr Hflag Hfile Hfloor Hn.
  destruct (init_after_broadcast junk setup_dielectric root others n Hr
              (static_cast_int_floor _ n Hfloor Hn))
    as (d & -> & Hcalc & Hnom & Hemin & Hemax & Hdelta).
  apply mapM_fmap_Done_Forall2. intros i p Hp.
  destruct (init_local_enabled_run junk setup_dielectric (MPI_Bcast d p))
    as (p' & Hrun & Hframe & Hdyn & Hc & He & HE & Hd & Hgrid).
  - simpl. rewrite Hcalc. exact Hflag.
  - simpl. intros H0. destruct i as [|i].
    + injection Hp as <-. exact Hfile.
    + pose proof (Hr (S i) p Hp). lia.
  - simpl. rewrite Hnom, (to_unsigned_small n Hn). lia.
  - exists p'. split; [exact Hrun|]. simpl in *.
    rewrite Hnom, Hemin, Hdelta in Hgrid.
    rewrite (to_unsigned_small n Hn) in Hgrid.
    split; [exact Hframe|]. split; [exact Hdyn|]. split; [|exact Hgrid].
    unfold received. destruct Hgrid as (Hnomega & _).
    rewrite Hc, He, HE, Hd, Hnomega, (to_unsigned_small n Hn).
    repeat split; assumption.
Qed.

(** ** The driver of the dielectric calculation *)

(** Lines 112-134 without the pattern matching on the two pairs. *)
Lemma run_dielec_calculation_eq K junk FC2
    (eval_k : Dynamical -> System -> list float -> FC2 ->
              list float * array2 complex) (fc2_ext : FC2) p :
  let d := dielec_obj p in
  let sol := eval_k (dynamical p) (system p) [0; 0; 0]%float fc2_ext in
  run_dielec_calculation K junk FC2 eval_k fc2_ext p
  = {| my_rank := my_rank p; dos := dos p; dynamical := dynamical p;
       system := system p;
       dielec_obj :=
         {| calc_dielectric_constant := calc_dielectric_constant d;
            dielec :=
              Some (compute_dielectric_function K junk (dynamical p) (system p)
                      (Z.to_nat (nomega d)) (default [] (omega_grid d))
                      sol.1 sol.2
                      (allocate3
                         (fun k => junk (3 * neval (dynamical p)
                                         + 9 * neval (dynamical p) + k))
                         (Z.to_nat (nomega d)) 3 3)).2;
            omega_grid := omega_grid d;
            emin := emin d; emax := emax d; delta_e := delta_e d;
            nomega := nomega d |} |}.
Proof.
  intros d sol. unfold run_dielec_calculation. fold d. fold sol.
  destruct sol as [eval evec]. reflexivity.
Qed.

(** [run_dielec_calculation] on an object that has a grid: it stores an
    [nomega]-by-3-by-3 tensor series whose entries are the spec's formula on
    the eigensolution the solver returns at q = 0, replaces whatever series
    was stored, and changes nothing else: the grid, [nomega], the scalars and
    the collaborators are as before (the eigenvectors it normalises are its
    own copy). *)
Theorem run_dielec_calculation_stores_tensor K junk FC2
    (eval_k : Dynamical -> System -> list float -> FC2 ->
              list float * array2 complex) (fc2_ext : FC2) p g :
  omega_grid (dielec_obj p) = Some g ->
  length g = Z.to_nat (nomega (dielec_obj p)) ->
  dim2 (neval (dynamical p)) (neval (dynamical p))
    (eval_k (dynamical p) (system p) [0; 0; 0]%float fc2_ext).2 ->
  let sol := eval_k (dynamical p) (system p) [0; 0; 0]%float fc2_ext in
  let p' := run_dielec_calculation K junk FC2 eval_k fc2_ext p in
  (my_rank p' = my_rank p /\ dos p' = dos p /\ dynamical p' = dynamical p
   /\ system p' = system p)
  /\ (calc_dielectric_constant (dielec_obj p')
      = calc_dielectric_constant (dielec_obj p)
      /\ emin (dielec_obj p') = emin (dielec_obj p)
      /\ emax (dielec_obj p') = emax (dielec_obj p)
      /\ delta_e (dielec_obj p') = delta_e (dielec_obj p)
      /\ get_omega_grid (dielec_obj p') = get_omega_grid (dielec_obj p))
  /\ exists t,
       get_dielectric_func (dielec_obj p') = Some t
       /\ dim3 (Z.to_nat (nomega (dielec_obj p))) 3 3 t
       /\ forall iomega i j,
            iomega < Z.to_nat (nomega (dielec_obj p)) -> i < 3 -> j < 3 ->
            get3 t iomega i j
            = Spec.dielec K (dynamical p) (system p) g sol.1 sol.2 iomega i j.
Proof.
  intros Hg _ Hev sol p'. subst p'.
  rewrite run_dielec_calculation_eq. fold sol. simpl.
  split; [repeat split|]. split; [repeat split|].
  rewrite Hg. simpl default.
  destruct (compute_dielectric_function_spec K junk (dynamical p) (system p)
              (Z.to_nat (nomega (dielec_obj p))) g sol.1 sol.2
              (allocate3
                 (fun k => junk (3 * neval (dynamical p)
                                 + 9 * neval (dynamical p) + k))
                 (Z.to_nat (nomega (dielec_obj p))) 3 3) Hev
              (dim3_allocate3 _ _ 3 3)) as (_ & _ & Hdim & Hval).
  eexists. split; [reflexivity|]. split; [exact Hdim|exact Hval].
Qed.

Lemma run_dielec_calculation_stores_tensor_witness :
  exists t,
    get_dielectric_func
      (dielec_obj
         (run_dielec_calculation Sample.K Sample.junk unit Sample.eval_k tt
            {| my_rank := 0; dos := {| dos_emin := 0; dos_emax := 2; dos_delta_e := 1 |};
               dynamical := Sample.dyn "born" (Some (Sample.charges 1));
               system := Sample.sys;
               dielec_obj :=
                 {| calc_dielectric_constant := 1; dielec := None;
                    omega_grid := Some [0; 1]%float;
                    emin := 0; emax := 2; delta_e := 1; nomega := 2 |} |}))
    = Some t
    /\ dim3 2 3 3 t.
Proof.
  destruct (run_dielec_calculation_stores_tensor Sample.K Sample.junk unit
              Sample.eval_k tt
              {| my_rank := 0;
                 dos := {| dos_emin := 0; dos_emax := 2; dos_delta_e := 1 |};
                 dynamical := Sample.dyn "born" (Some (Sample.charges 1));
                 system := Sample.sys;
                 dielec_obj :=
                   {| calc_dielectric_constant := 1; dielec := None;
                      omega_grid := Some [0; 1]%float;
                      emin := 0; emax := 2; delta_e := 1; nomega := 2 |} |}
              [0; 1]%float) as (_ & _ & t & Ht & Hdim & _);
    [reflexivity|reflexivity|shape|].
  exists t. split; [exact Ht|exact Hdim].
Defined.





(** ** What [compute_dielectric_function] reads and writes *)

(** Lines 222-238 on an output array of [n] rows, [n] at least [nomega_in]:
    the rows below [nomega_in] are filled and no other cell is written. *)
Lemma sum_modes_frame K ns sys nomega_in n (omega_grid_in eval_in : list float)
    (sb d0 : array3 float) :
  nomega_in <= n ->
  dim3 n 3 3 d0 ->
  let r := sum_modes K ns sys nomega_in omega_grid_in eval_in sb d0 in
  dim3 n 3 3 r
  /\ (forall iomega i j, iomega < nomega_in -> i < 3 -> j < 3 ->
        get3 r iomega i j
        = (fsum 3 ns (fun is_ =>
             get3 sb i j is_
             / (eval_in !!! is_ - Spec.omega_conv2 K (omega_grid_in !!! iomega)))
           * (8 * pi K / volume_p sys))%float)
  /\ (forall iomega i j, nomega_in <= iomega ->
        get3 r iomega i j = get3 d0 iomega i j).
Proof.
  intros Hle Hdim r. subst r. unfold sum_modes.
  destruct (acts_nest3 (dim3 n 3 3) cget3 nomega_in 3 3
              (fun iomega i j => (iomega, i, j))
              (fun x _ =>
                 (fsum 3 ns (fun is_ =>
                    get3 sb x.1.2 x.2 is_
                    / (eval_in !!! is_
                       - Spec.omega_conv2 K (omega_grid_in !!! x.1.1)))
                  * (8 * pi K / volume_p sys))%float)
              (fun iomega i j d =>
                 let d := upd3 d iomega i j 0%float in
                 let d :=
                   for_loop 3 ns (fun is_ d =>
                     upd3 d iomega i j
                       (get3 d iomega i j
                        + get3 sb i j is_
                          / (eval_in !!! is_
                             - Spec.omega_conv2 K (omega_grid_in !!! iomega)))%float)
                     d in
                 upd3 d iomega i j
                   (get3 d iomega i j * (8 * pi K / volume_p sys))%float))
    with (s := d0) as (Hwf & Hin & Hout).
  - intros iomega i j Hio Hi Hj.
    apply (acts_accumulate_post (dim3 n 3 3) cget3 cupd3 (in3 n 3 3)
             (cget3_cupd3_eq n 3 3) cget3_cupd3_ne
             (dim3_cupd3 n 3 3) (iomega, i, j) 3 ns 0%float
             (fun is_ acc =>
                (acc + get3 sb i j is_
                       / (eval_in !!! is_
                          - Spec.omega_conv2 K (omega_grid_in !!! iomega)))%float)
             (fun v => (v * (8 * pi K / volume_p sys))%float)).
    + repeat split; simpl; [lia|assumption|assumption].
    + reflexivity.
  - intros i j k i' j' k' Hx. repeat split; congruence.
  - exact Hdim.
  - split; [exact Hwf|]. split.
    + intros iomega i j Hio Hi Hj. apply (Hin (iomega, i, j)). eauto 8.
    + intros iomega i j Hio. apply (Hout (iomega, i, j)).
      intros (io & i' & j' & Hio' & _ & _ & Hx). injection Hx as -> _ _. lia.
Qed.

(** [compute_dielectric_function] writes the first [nomega_in] matrices of
    [dielec_out] and nothing else: in a longer output array the matrices from
    [nomega_in] on are as the caller left them, and with [nomega_in = 0] the
    array comes back unchanged, whatever its shape, while [evec_in] is
    normalised all the same. *)
Theorem dielec_out_frame K junk dyn sys nomega_in n
    (omega_grid_in eval_in : list float) (evec_in : array2 complex)
    (dielec_out : array3 float) :
  nomega_in <= n ->
  dim2 (neval dyn) (neval dyn) evec_in ->
  dim3 n 3 3 dielec_out ->
  (forall iomega i j, nomega_in <= iomega ->
     get3 (compute_dielectric_function K junk dyn sys nomega_in omega_grid_in
             eval_in evec_in dielec_out).2 iomega i j
     = get3 dielec_out iomega i j)
  /\ dim3 n 3 3
       (compute_dielectric_function K junk dyn sys nomega_in omega_grid_in
          eval_in evec_in dielec_out).2
  /\ (forall (any : array3 float),
        compute_dielectric_function K junk dyn sys 0 omega_grid_in eval_in
          evec_in any
        = (normalize_evec (neval dyn) sys evec_in, any)).
Proof.
  intros Hle _ Hdim. unfold compute_dielectric_function. cbn [fst snd].
  destruct (sum_modes_frame K (neval dyn) sys nomega_in n omega_grid_in eval_in
              (outer_products (neval dyn)
                 (project_born (neval dyn) (zstar_of dyn)
                    (normalize_evec (neval dyn) sys evec_in)
                    (allocate2 junk 3 (neval dyn)))
                 (allocate3 (fun k => junk (3 * neval dyn + k)) 3 3 (neval dyn)))
              dielec_out Hle Hdim) as (Hout & _ & Hframe).
  split; [exact Hframe|]. split; [exact Hout|].
  intros any. unfold sum_modes. rewrite for_loop_done by lia. reflexivity.
Qed.

Lemma dielec_out_frame_witness :
  get3 (compute_dielectric_function Sample.K Sample.junk
          (Sample.dyn "born" (Some (Sample.charges 1))) Sample.sys 1
          [0; 1]%float Sample.eval Sample.evec
          (replicate 2 (replicate 3 (replicate 3 7%float)))).2 1 2 2
  = 7%float.
Proof.
  refine (eq_trans (proj1 (dielec_out_frame Sample.K Sample.junk
            (Sample.dyn "born" (Some (Sample.charges 1))) Sample.sys 1 2
            [0; 1]%float Sample.eval Sample.evec
            (replicate 2 (replicate 3 (replicate 3 7%float))) _ _ _) 1 2 2 _)
            _);
    [lia|shape|shape|lia|reflexivity].
Defined.

(** A number that is not finite times [+0] is not a number. *)
Lemma mul_zero_not_finite (x : float) :
  Num.is_finite x = false -> (x * 0)%float = nan.
Proof.
  unfold Num.is_finite. intros Hx. apply Prim2SF_inj. rewrite mul_spec.
  change (Prim2SF 0) with (S754_zero false). change (Prim2SF nan) with S754_nan.
  destruct (Prim2SF x) as [s|s| |s m e]; try discriminate; reflexivity.
Qed.

(** The square of the opposite is the square. *)
Lemma opp_mul_opp (x : float) : (- x * - x)%float = (x * x)%float.
Proof.
  apply Prim2SF_inj. rewrite !mul_spec, opp_spec.
  destruct (Prim2SF x) as [s|s| |s m e]; simpl; try reflexivity;
    destruct s; reflexivity.
Qed.

(** Without optical modes (at most three modes, a single atom) every entry
    of the tensor is [8 pi / V] times [+0], whatever the Born charges, the
    eigensolution and the grid are: a zero when [8 pi / V] is finite, and not
    a number when it is not (a zero volume). *)
Theorem no_optical_mode_no_response K junk dyn sys nomega_in
    (omega_grid_in eval_in : list float) (evec_in : array2 complex)
    (dielec_out : array3 float) :
  neval dyn <= 3 ->
  dim2 (neval dyn) (neval dyn) evec_in ->
  dim3 nomega_in 3 3 dielec_out ->
  forall iomega i j, iomega < nomega_in -> i < 3 -> j < 3 ->
    let entry :=
      get3 (compute_dielectric_function K junk dyn sys nomega_in omega_grid_in
              eval_in evec_in dielec_out).2 iomega i j in
    entry = (8 * pi K / volume_p sys * 0)%float
    /\ (Num.is_finite (8 * pi K / volume_p sys) = true ->
        Num.is_zero entry = true)
    /\ (Num.is_finite (8 * pi K / volume_p sys) = false -> entry = nan).
Proof.
  intros Hns Hev Hd iomega i j Hio Hi Hj entry.
  assert (Hentry : entry = (8 * pi K / volume_p sys * 0)%float).
  { subst entry.
    destruct (compute_dielectric_function_spec K junk dyn sys nomega_in
                omega_grid_in eval_in evec_in dielec_out Hev Hd)
      as (_ & _ & _ & Hval).
    rewrite Hval by assumption. unfold Spec.dielec, fsum.
    replace (neval dyn - 3) with 0 by lia. reflexivity. }
  split; [exact Hentry|]. rewrite Hentry. split.
  - intros Hfin. apply FloatFacts.mul_zero_r; [exact Hfin|reflexivity].
  - apply mul_zero_not_finite.
Qed.

Lemma no_optical_mode_no_response_witness :
  Num.is_zero
    (get3 (compute_dielectric_function Sample.K Sample.junk
             {| neval := 3; file_born := "born";
                borncharge := Some (Sample.charges 1);
                projection_directions := [] |}
             Sample.sys 2 [0; 1]%float Sample.eval
             (replicate 3 (replicate 3 (Cplx 1 1)))
             (allocate3 Sample.junk 2 3 3)).2 1 0 0) = true.
Proof.
  refine (proj1 (proj2 (no_optical_mode_no_response Sample.K Sample.junk
            {| neval := 3; file_born := "born";
               borncharge := Some (Sample.charges 1);
               projection_directions := [] |}
            Sample.sys 2 [0; 1]%float Sample.eval
            (replicate 3 (replicate 3 (Cplx 1 1)))
            (allocate3 Sample.junk 2 3 3) _ _ _ 1 0 0 _ _ _)) _);
    [simpl; lia|shape|shape|lia|lia|lia|vm_compute; reflexivity].
Defined.

(** The tensor reads the eigenvectors of the optical modes through their
    real parts only: two eigenvector arrays whose real parts agree on the
    modes [is >= 3] give the same tensor, whatever their imaginary parts and
    their acoustic modes are. *)
Theorem dielec_reads_real_parts K junk dyn sys nomega_in
    (omega_grid_in eval_in : list float) (evec_in evec_in' : array2 complex)
    (dielec_out : array3 float) :
  dim2 (neval dyn) (neval dyn) evec_in ->
  dim2 (neval dyn) (neval dyn) evec_in' ->
  dim3 nomega_in 3 3 dielec_out ->
  (forall is_ j, 3 <= is_ < neval dyn -> j < neval dyn ->
     real (get2 evec_in' is_ j) = real (get2 evec_in is_ j)) ->
  (compute_dielectric_function K junk dyn sys nomega_in omega_grid_in eval_in
     evec_in' dielec_out).2
  = (compute_dielectric_function K junk dyn sys nomega_in omega_grid_in eval_in
       evec_in dielec_out).2.
Proof.
  intros Hev Hev' Hd Hreal.
  destruct (compute_dielectric_function_spec K junk dyn sys nomega_in
              omega_grid_in eval_in evec_in dielec_out Hev Hd)
    as (_ & _ & Hout & Hval).
  destruct (compute_dielectric_function_spec K junk dyn sys nomega_in
              omega_grid_in eval_in evec_in' dielec_out Hev' Hd)
    as (_ & _ & Hout' & Hval').
  apply (array3_ext nomega_in 3 3); [exact Hout'|exact Hout|].
  intros k i j Hk Hi Hj.
  rewrite (Hval' k i j Hk Hi Hj), (Hval k i j Hk Hi Hj).
  unfold Spec.dielec. f_equal. apply fsum_ext. intros is_ His.
  assert (Hz : forall i', Spec.zstar_u dyn sys evec_in' i' is_
                          = Spec.zstar_u dyn sys evec_in i' is_).
  { intros i'. unfold Spec.zstar_u. apply fsum_ext. intros m Hm.
    unfold Spec.evec_normalized, cdiv_real. cbn [real].
    rewrite Hreal by lia. reflexivity. }
  unfold Spec.s_born. rewrite !Hz. reflexivity.
Qed.

Lemma dielec_reads_real_parts_witness :
  (compute_dielectric_function Sample.K Sample.junk
     (Sample.dyn "born" (Some (Sample.charges 1))) Sample.sys 2 [0; 1]%float
     Sample.eval (map (map (fun z => Cplx (real z) 5)) Sample.evec)
     (allocate3 Sample.junk 2 3 3)).2
  = (compute_dielectric_function Sample.K Sample.junk
       (Sample.dyn "born" (Some (Sample.charges 1))) Sample.sys 2 [0; 1]%float
       Sample.eval Sample.evec (allocate3 Sample.junk 2 3 3)).2.
Proof.
  apply (dielec_reads_real_parts Sample.K Sample.junk
           (Sample.dyn "born" (Some (Sample.charges 1))) Sample.sys 2
           [0; 1]%float Sample.eval Sample.evec
           (map (map (fun z => Cplx (real z) 5)) Sample.evec)
           (allocate3 Sample.junk 2 3 3)); [shape|shape|shape|].
  intros is_ j His Hj. simpl in His, Hj.
  do 6 (destruct is_ as [|is_];
        [do 6 (destruct j as [|j]; [reflexivity|]); lia|]).
  lia.
Defined.

(** The tensor depends on a grid frequency through its square only: the
    grid point [-omega] gets the same matrix as the grid point [omega]. *)
Theorem dielec_even_in_omega K junk dyn sys nomega_in
    (omega_grid_in omega_grid_in' eval_in : list float)
    (evec_in : array2 complex) (dielec_out : array3 float) :
  dim2 (neval dyn) (neval dyn) evec_in ->
  dim3 nomega_in 3 3 dielec_out ->
  (forall iomega, iomega < nomega_in ->
     omega_grid_in' !!! iomega = (- omega_grid_in !!! iomega)%float) ->
  (compute_dielectric_function K junk dyn sys nomega_in omega_grid_in' eval_in
     evec_in dielec_out).2
  = (compute_dielectric_function K junk dyn sys nomega_in omega_grid_in eval_in
       evec_in dielec_out).2.
Proof.
  intros Hev Hd Hopp.
  destruct (compute_dielectric_function_spec K junk dyn sys nomega_in
              omega_grid_in eval_in evec_in dielec_out Hev Hd)
    as (_ & _ & Hout & Hval).
  destruct (compute_dielectric_function_spec K junk dyn sys nomega_in
              omega_grid_in' eval_in evec_in dielec_out Hev Hd)
    as (_ & _ & Hout' & Hval').
  apply (array3_ext nomega_in 3 3); [exact Hout'|exact Hout|].
  intros k i j Hk Hi Hj.
  rewrite (Hval' k i j Hk Hi Hj), (Hval k i j Hk Hi Hj).
  unfold Spec.dielec, Spec.omega_conv2. rewrite (Hopp k Hk), opp_mul_opp.
  reflexivity.
Qed.

Lemma dielec_even_in_omega_witness :
  (compute_dielectric_function Sample.K Sample.junk
     (Sample.dyn "born" (Some (Sample.charges 1))) Sample.sys 2 [-0; -1]%float
     Sample.eval Sample.evec (allocate3 Sample.junk 2 3 3)).2
  = (compute_dielectric_function Sample.K Sample.junk
       (Sample.dyn "born" (Some (Sample.charges 1))) Sample.sys 2 [0; 1]%float
       Sample.eval Sample.evec (allocate3 Sample.junk 2 3 3)).2.
Proof.
  apply (dielec_even_in_omega Sample.K Sample.junk
           (Sample.dyn "born" (Some (Sample.charges 1))) Sample.sys 2
           [0; 1]%float [-0; -1]%float Sample.eval Sample.evec
           (allocate3 Sample.junk 2 3 3)); [shape|shape|].
  intros [|[|k]] Hk; [reflexivity|reflexivity|lia].
Defined.

(** ** What [compute_mode_effective_charge] reads and writes *)

(** Lines 303-314 on a table of [n] rows and [m] columns, at least [ns] by 3:
    the cells of the first [ns] rows and 3 columns are written, no other. *)
Lemma mode_charges_frame ns n m zstar (evec : array2 complex) do_normalize
    (zm0 : array2 float) :
  ns <= n -> 3 <= m ->
  dim2 n m zm0 ->
  let r := mode_charges ns zstar evec do_normalize zm0 in
  dim2 n m r
  /\ (forall is_ i, is_ < ns -> i < 3 ->
        get2 r is_ i
        = let z := fsum 0 ns (fun j =>
                     get3 zstar (j / 3) i (j mod 3) * real (get2 evec is_ j))%float in
          if do_normalize
          then (z / PrimFloat.sqrt (fsum 0 ns (fun j => norm (get2 evec is_ j))))%float
          else z)
  /\ (forall is_ i, ~ (is_ < ns /\ i < 3) -> get2 r is_ i = get2 zm0 is_ i).
Proof.
  intros Hn Hm Hdim r. subst r. unfold mode_charges.
  set (term := fun (is_ i j : nat) =>
    (get3 zstar (j / 3) i (j mod 3) * real (get2 evec is_ j))%float).
  set (G := fun (x : nat * nat) (_ : float) =>
    let z := fsum 0 ns (term x.1 x.2) in
    if do_normalize
    then (z / PrimFloat.sqrt (fsum 0 ns (fun j => norm (get2 evec x.1 j))))%float
    else z).
  destruct (acts_nest2 (dim2 n m) cget2 3 ns (fun i is_ => (is_, i)) G
              (fun i is_ zm =>
                 let zm := upd2 zm is_ i 0%float in
                 let '(zm, normalization_factor) :=
                   for_loop 0 ns (fun j '(zm, nf) =>
                     (upd2 zm is_ i (get2 zm is_ i + term is_ i j)%float,
                      (nf + norm (get2 evec is_ j))%float)) (zm, 0%float) in
                 if do_normalize
                 then upd2 zm is_ i
                        (get2 zm is_ i / PrimFloat.sqrt normalization_factor)%float
                 else zm))
    with (s := zm0) as (Hwf & Hin & Hout).
  - intros i is_ Hi His s Hs. cbv zeta.
    rewrite (for_loop_pair 0 ns
               (fun j zm => upd2 zm is_ i (get2 zm is_ i + term is_ i j)%float)
               (fun j nf => (nf + norm (get2 evec is_ j))%float)).
    assert (Hc : in2 n m (is_, i)) by (split; simpl; lia).
    set (R := for_loop 0 ns
                (fun j zm => upd2 zm is_ i (get2 zm is_ i + term is_ i j)%float)
                (upd2 s is_ i 0%float)).
    assert (HR : dim2 n m R
                 /\ get2 R is_ i = fsum 0 ns (term is_ i)
                 /\ forall x, x <> (is_, i) -> cget2 R x = cget2 s x).
    { destruct (accumulate_spec (dim2 n m) cget2 cupd2 (in2 n m)
                  (cget2_cupd2_eq n m) cget2_cupd2_ne (dim2_cupd2 n m)
                  (is_, i) 0 ns (fun j acc => (acc + term is_ i j)%float)
                  (cupd2 s (is_, i) 0%float)
                  (dim2_cupd2 n m s (is_, i) 0%float Hs) Hc)
        as (Hwf & Hval & Hoth).
      rewrite (cget2_cupd2_eq n m) in Hval by assumption.
      split; [exact Hwf|]. split; [exact Hval|].
      intros x Hx. rewrite <- (cget2_cupd2_ne s (is_, i) x 0%float) by exact Hx.
      apply Hoth, Hx. }
    destruct HR as (Hwf & Hval & Hoth).
    unfold G. destruct do_normalize.
    + split; [apply dim2_upd2, Hwf|]. split.
      * intros x ->.
        etransitivity; [apply (cget2_cupd2_eq n m _ (is_, i)); assumption|].
        rewrite Hval. reflexivity.
      * intros x Hx.
        etransitivity; [apply (cget2_cupd2_ne _ (is_, i)), Hx|].
        apply Hoth, Hx.
    + split; [exact Hwf|]. split.
      * intros x ->. exact Hval.
      * intros x Hx. apply Hoth, Hx.
  - intros i j i' j' Hx. split; congruence.
  - exact Hdim.
  - split; [exact Hwf|]. split.
    + intros is_ i His Hi. apply (Hin (is_, i)). eauto.
    + intros is_ i Hnot. apply (Hout (is_, i)).
      intros (i' & is' & Hi' & His' & Hx). injection Hx as -> ->.
      apply Hnot. split; assumption.
Qed.

Section ModeChargeFrame.

Variable K : Constants.
Variable FC2 : Type.
Variable eval_k :
  Dynamical -> System -> list float -> FC2 -> list float * array2 complex.
Variable project_degenerate_eigenvectors :
  Dynamical -> array2 float -> FC2 -> list float -> array2 float -> array2 complex.
Variable setup_dielectric : Z -> Dynamical -> Dynamical.

Let charge := compute_mode_effective_charge K FC2 eval_k
                project_degenerate_eigenvectors setup_dielectric.
Let lazy := with_borncharge setup_dielectric 0.
Let solved := solved_evec FC2 eval_k project_degenerate_eigenvectors.

(** [compute_mode_effective_charge] writes the cells [zstar_mode[is][i]],
    [is < ns], [i < 3], of the caller's table and no other: in a larger table
    the further rows and columns come back as the caller left them. *)
Theorem zstar_mode_frame (fc2_ext : FC2) dyn sys n m
    (zstar_mode : array2 float) do_normalize :
  file_born dyn <> "" ->
  neval (lazy dyn) <= n -> 3 <= m ->
  dim2 n m zstar_mode ->
  exists zm,
    charge fc2_ext dyn sys zstar_mode do_normalize = Done (lazy dyn, zm)
    /\ dim2 n m zm
    /\ forall is_ i, ~ (is_ < neval (lazy dyn) /\ i < 3) ->
         get2 zm is_ i = get2 zstar_mode is_ i.
Proof.
  intros Hfile Hn Hm Hzm. subst charge. unfold compute_mode_effective_charge.
  rewrite bool_decide_eq_false_2 by exact Hfile. fold (lazy dyn).
  cbv zeta.
  destruct (mode_charges_frame (neval (lazy dyn)) n m (zstar_of (lazy dyn))
              (normalize_evec_amu K (neval (lazy dyn)) sys
                 (match projection_directions (lazy dyn) with
                  | [] => (eval_k (lazy dyn) sys [0; 0; 0]%float fc2_ext).2
                  | _ :: _ =>
                      project_degenerate_eigenvectors (lazy dyn) (lavec_p sys)
                        fc2_ext [0; 0; 0]%float (projection_directions (lazy dyn))
                  end))
              do_normalize zstar_mode Hn Hm Hzm) as (Hdim & _ & Hframe).
  eexists. split; [reflexivity|]. split; [exact Hdim|exact Hframe].
Qed.

(** The unnormalised charge of a mode reads the real parts of that mode's
    eigenvector and nothing else of the eigensolution: two solvers whose
    eigenvectors of mode [is] have the same real parts give the same row
    [is] of the table [get_zstar_mode] returns. *)
Theorem zstar_mode_reads_own_real_parts
    (eval_k' : Dynamical -> System -> list float -> FC2 ->
               list float * array2 complex)
    (project_degenerate_eigenvectors' :
       Dynamical -> array2 float -> FC2 -> list float -> array2 float ->
       array2 complex)
    (fc2_ext : FC2) dyn sys is_ :
  let evec := solved fc2_ext (lazy dyn) sys in
  let evec' :=
    solved_evec FC2 eval_k' project_degenerate_eigenvectors' fc2_ext
      (lazy dyn) sys in
  file_born dyn <> "" ->
  neval (lazy dyn) = neval dyn ->
  dim2 (neval dyn) (neval dyn) evec ->
  dim2 (neval dyn) (neval dyn) evec' ->
  is_ < neval dyn ->
  (forall j, j < neval dyn ->
     real (get2 evec' is_ j) = real (get2 evec is_ j)) ->
  exists zm zm',
    get_zstar_mode K FC2 eval_k project_degenerate_eigenvectors
      setup_dielectric fc2_ext dyn sys = Done (lazy dyn, zm)
    /\ get_zstar_mode K FC2 eval_k' project_degenerate_eigenvectors'
         setup_dielectric fc2_ext dyn sys = Done (lazy dyn, zm')
    /\ forall i, i < 3 -> get2 zm' is_ i = get2 zm is_ i.
Proof.
  intros evec evec' Hfile Hns Hev Hev' His Hreal. unfold get_zstar_mode.
  destruct (compute_mode_effective_charge_spec K FC2 eval_k
              project_degenerate_eigenvectors setup_dielectric fc2_ext dyn sys
              (replicate (neval dyn) (replicate 3 0%float)) false Hfile)
    as (zm & Hrun & _ & Hval).
  { fold lazy. rewrite Hns. exact Hev. }
  { fold lazy. rewrite Hns. apply dim2_replicate. }
  destruct (compute_mode_effective_charge_spec K FC2 eval_k'
              project_degenerate_eigenvectors' setup_dielectric fc2_ext dyn sys
              (replicate (neval dyn) (replicate 3 0%float)) false Hfile)
    as (zm' & Hrun' & _ & Hval').
  { fold lazy. rewrite Hns. exact Hev'. }
  { fold lazy. rewrite Hns. apply dim2_replicate. }
  exists zm, zm'. split; [exact Hrun|]. split; [exact Hrun'|].
  intros i Hi. fold lazy in Hval, Hval'. rewrite Hns in Hval, Hval'.
  rewrite (Hval' is_ i His Hi), (Hval is_ i His Hi).
  unfold Spec.zmode. fold lazy. rewrite Hns. apply fsum_ext. intros j Hj.
  unfold Spec.evec_normalized_amu, cdiv_real. cbn [real].
  fold evec'. fold evec. rewrite (Hreal j) by lia. reflexivity.
Qed.

End ModeChargeFrame.

Lemma zstar_mode_frame_witness :
  exists zm,
    compute_mode_effective_charge Sample.K unit Sample.eval_k
      Sample.project_degenerate_eigenvectors Sample.setup_dielectric tt
      (Sample.dyn "born" None) Sample.sys (replicate 8 (replicate 4 7%float)) true
    = Done (Sample.setup_dielectric 0 (Sample.dyn "born" None), zm)
    /\ get2 zm 6 0 = 7%float /\ get2 zm 0 3 = 7%float.
Proof.
  destruct (zstar_mode_frame Sample.K unit Sample.eval_k
              Sample.project_degenerate_eigenvectors Sample.setup_dielectric tt
              (Sample.dyn "born" None) Sample.sys 8 4
              (replicate 8 (replicate 4 7%float)) true)
    as (zm & Hrun & _ & Hframe); [discriminate|simpl; lia|lia|shape|].
  exists zm. split; [exact Hrun|]. split.
  - refine (eq_trans (Hframe 6 0 _) _); [simpl; lia|reflexivity].
  - refine (eq_trans (Hframe 0 3 _) _); [simpl; lia|reflexivity].
Defined.

Lemma zstar_mode_reads_own_real_parts_witness :
  exists zm zm',
    get_zstar_mode Sample.K unit Sample.eval_k
      Sample.project_degenerate_eigenvectors Sample.setup_dielectric tt
      (Sample.dyn "born" None) Sample.sys
    = Done (Sample.setup_dielectric 0 (Sample.dyn "born" None), zm)
    /\ get_zstar_mode Sample.K unit
         (fun _ _ _ _ =>
            (Sample.eval, map (map (fun z => Cplx (real z) 5)) Sample.evec))
         Sample.project_degenerate_eigenvectors Sample.setup_dielectric tt
         (Sample.dyn "born" None) Sample.sys
       = Done (Sample.setup_dielectric 0 (Sample.dyn "born" None), zm')
    /\ forall i, i < 3 -> get2 zm' 4 i = get2 zm 4 i.
Proof.
  apply (zstar_mode_reads_own_real_parts Sample.K unit Sample.eval_k
           Sample.project_degenerate_eigenvectors Sample.setup_dielectric
           (fun _ _ _ _ =>
              (Sample.eval, map (map (fun z => Cplx (real z) 5)) Sample.evec))
           Sample.project_degenerate_eigenvectors tt
           (Sample.dyn "born" None) Sample.sys 4);
    [discriminate|reflexivity|shape|shape|simpl; lia|].
  intros j Hj. simpl in Hj.
  do 6 (destruct j as [|j]; [reflexivity|]). lia.
Defined.

(** ** Division without a guard *)

Lemma is_zero_is_finite (x : float) :
  Num.is_zero x = true -> Num.is_finite x = true.
Proof.
  unfold Num.is_zero, Num.is_finite.
  destruct (Prim2SF x); intros; try discriminate; reflexivity.
Qed.

Lemma add_zero_zero (x y : float) :
  Num.is_zero x = true -> Num.is_zero y = true -> Num.is_zero (x + y) = true.
Proof.
  unfold Num.is_zero. rewrite add_spec.
  destruct (Prim2SF x) as [sx|sx| |sx mx ex]; try discriminate.
  destruct (Prim2SF y) as [sy|sy| |sy my ey]; try discriminate.
  destruct sx, sy; reflexivity.
Qed.

(** The squared magnitude of a zero is a zero. *)
Lemma norm_zero (z : complex) :
  Num.is_zero (real z) = true -> Num.is_zero (imag z) = true ->
  Num.is_zero (norm z) = true.
Proof.
  intros Hre Him. unfold norm.
  apply add_zero_zero; apply FloatFacts.mul_zero_l;
    auto using is_zero_is_finite.
Qed.

Section ZeroEigenvector.

Variable K : Constants.
Variable FC2 : Type.
Variable eval_k :
  Dynamical -> System -> list float -> FC2 -> list float * array2 complex.
Variable project_degenerate_eigenvectors :
  Dynamical -> array2 float -> FC2 -> list float -> array2 float -> array2 complex.
Variable setup_dielectric : Z -> Dynamical -> Dynamical.

Let charge := compute_mode_effective_charge K FC2 eval_k
                project_degenerate_eigenvectors setup_dielectric.
Let lazy := with_borncharge setup_dielectric 0.
Let solved := solved_evec FC2 eval_k project_degenerate_eigenvectors.

(** The division by the square root of the norm has no guard: when
    normalisation is requested and the mass-normalised eigenvector of a mode
    is zero in every component (and the Born charges are finite), the three
    charges of that mode come back as [0/0], not a number. *)
Theorem normalized_zero_eigenvector_is_nan (fc2_ext : FC2) dyn sys
    (zstar_mode : array2 float) is_ :
  let evec := solved fc2_ext (lazy dyn) sys in
  file_born dyn <> "" ->
  dim2 (neval (lazy dyn)) (neval (lazy dyn)) evec ->
  dim2 (neval (lazy dyn)) 3 zstar_mode ->
  is_ < neval (lazy dyn) ->
  (forall j, j < neval (lazy dyn) ->
     Num.is_zero (real (Spec.evec_normalized_amu K sys evec is_ j)) = true
     /\ Num.is_zero (imag (Spec.evec_normalized_amu K sys evec is_ j)) = true) ->
  (forall j i, j < neval (lazy dyn) ->
     Num.is_finite (get3 (zstar_of (lazy dyn)) (j / 3) i (j mod 3)) = true) ->
  exists zm,
    charge fc2_ext dyn sys zstar_mode true = Done (lazy dyn, zm)
    /\ forall i, i < 3 -> get2 zm is_ i = nan.
Proof.
  intros evec Hfile Hev Hzm His Hzero Hfin.
  destruct (compute_mode_effective_charge_spec K FC2 eval_k
              project_degenerate_eigenvectors setup_dielectric fc2_ext dyn sys
              zstar_mode true Hfile Hev Hzm) as (zm & Hrun & _ & Hval).
  exists zm. split; [exact Hrun|]. intros i Hi.
  rewrite (Hval is_ i His Hi). fold lazy. fold (solved fc2_ext (lazy dyn) sys).
  fold evec. unfold Spec.zmode_normalized.
  assert (Hz : Spec.zmode K (lazy dyn) sys evec is_ i = 0%float).
  { unfold Spec.zmode. apply FloatFacts.fsum_zero. intros j Hj.
    apply FloatFacts.mul_zero_r; [apply Hfin; lia|apply Hzero; lia]. }
  assert (Hn : Spec.evec_norm K (lazy dyn) sys evec is_ = 0%float).
  { unfold Spec.evec_norm. apply FloatFacts.fsum_zero. intros j Hj.
    apply norm_zero; apply Hzero; lia. }
  rewrite Hz, Hn. reflexivity.
Qed.

End ZeroEigenvector.

Lemma normalized_zero_eigenvector_is_nan_witness :
  exists zm,
    compute_mode_effective_charge Sample.K unit
      (fun _ _ _ _ => (Sample.eval, <[4 := replicate 6 (Cplx 0 0)]> Sample.evec))
      Sample.project_degenerate_eigenvectors Sample.setup_dielectric tt
      (Sample.dyn "born" None) Sample.sys (replicate 6 (replicate 3 0%float)) true
    = Done (Sample.setup_dielectric 0 (Sample.dyn "born" None), zm)
    /\ forall i, i < 3 -> get2 zm 4 i = nan.
Proof.
  apply (normalized_zero_eigenvector_is_nan Sample.K unit
           (fun _ _ _ _ =>
              (Sample.eval, <[4 := replicate 6 (Cplx 0 0)]> Sample.evec))
           Sample.project_degenerate_eigenvectors Sample.setup_dielectric tt
           (Sample.dyn "born" None) Sample.sys
           (replicate 6 (replicate 3 0%float)) 4);
    [discriminate|shape|shape|simpl; lia| |].
  - intros j Hj. simpl in Hj.
    do 6 (destruct j as [|j]; [split; vm_compute; reflexivity|]). lia.
  - intros j i Hj. simpl in Hj.
    do 6 (destruct j as [|j];
          [do 3 (destruct i as [|i]; [vm_compute; reflexivity|]);
           vm_compute; reflexivity|]).
    lia.
Defined.

(** ** The grid [init] fills *)

(** A finite double equals itself under [==]. *)
Lemma eqb_refl_finite (x : float) :
  Num.is_finite x = true -> (x =? x)%float = true.
Proof.
  unfold Num.is_finite. rewrite FloatAxioms.eqb_spec. unfold SFeqb, SFcompare.
  destruct (Prim2SF x) as [s|s| |s m e]; try discriminate; intros _.
  - reflexivity.
  - rewrite Z.compare_refl, Pos.compare_cont_refl. destruct s; reflexivity.
Qed.

(** A finite [x] plus zero times a finite [d] compares equal to [x]. *)
Lemma add_zero_mul_eqb (x d : float) :
  Num.is_finite x = true -> Num.is_finite d = true ->
  (x + 0 * d =? x)%float = true.
Proof.
  intros Hx Hd.
  assert (H0 : Num.is_zero (0 * d) = true)
    by (apply FloatFacts.mul_zero_l; [reflexivity|exact Hd]).
  pose proof (eqb_refl_finite x Hx) as Hrefl.
  revert H0 Hx Hrefl. unfold Num.is_zero, Num.is_finite.
  rewrite !FloatAxioms.eqb_spec, add_spec.
  destruct (Prim2SF (0 * d)) as [sz|sz| |sz mz ez]; try discriminate.
  destruct (Prim2SF x) as [s|s| |s m e]; try discriminate; intros _ _ Hrefl.
  - destruct s, sz; reflexivity.
  - exact Hrefl.
Qed.

(** A quotient [(a - b) / d] whose floor is positive has finite operands. *)
Lemma positive_quotient_finite (a b d : float) (n : Z) :
  Num.floor ((a - b) / d) = Some n -> (0 < n)%Z ->
  Num.is_finite b = true /\ Num.is_finite d = true.
Proof.
  unfold Num.floor, Num.is_finite. rewrite div_spec, sub_spec.
  intros H Hn.
  assert (Hd : match Prim2SF d with
               | S754_zero _ | S754_finite _ _ _ => true
               | _ => false
               end = true).
  { revert H. unfold SF64div, SFdiv.
    destruct (SF64sub (Prim2SF a) (Prim2SF b)) as [sy|sy| |sy my ey];
      destruct (Prim2SF d) as [sd|sd| |sd md ed];
      try reflexivity; simpl; intros H; try discriminate H;
      injection H as <-; lia. }
  split; [|exact Hd]. revert H. unfold SF64div, SF64sub, SFdiv, SFsub.
  destruct (Prim2SF b) as [sb|sb| |sb mb eb]; try reflexivity;
    destruct (Prim2SF a) as [sa|sa| |sa ma ea]; try destruct sa;
    try destruct sb;
    destruct (Prim2SF d) as [sd|sd| |sd md ed]; try discriminate Hd;
    simpl; intros H; discriminate H.
Qed.

(** After [init] on a grid of at least one point, the first grid point
    compares equal to [emin] on every process. *)
Theorem grid_starts_at_emin junk setup_dielectric root others n :
  ranked (root :: others) ->
  calc_dielectric_constant (dielec_obj root) <> 0%Z ->
  file_born (dynamical root) <> "" ->
  Num.floor (grid_quotient root) = Some n ->
  (0 < n < 2 ^ 31)%Z ->
  exists world',
    init junk setup_dielectric (root :: others) = Done world'
    /\ forall r p', world' !! r = Some p' ->
         exists g,
           get_omega_grid (dielec_obj p') = (Some g, n)
           /\ (g !!! 0%nat =? dos_emin (dos root))%float = true.
Proof.
  intros Hr Hflag Hfile Hfloor Hn.
  destruct (init_enabled_run junk setup_dielectric root others n Hr Hflag Hfile
              Hfloor ltac:(lia)) as (world' & Hrun & Hall).
  exists world'. split; [exact Hrun|]. intros r p' Hp'.
  destruct (Forall2_lookup_r _ _ _ _ _ Hall Hp')
    as (p & _ & _ & _ & _ & Hnom & g & Hg & Hlen & Hval).
  exists g. unfold get_omega_grid. rewrite Hg, Hnom. split; [reflexivity|].
  rewrite Hval by lia.
  destruct (positive_quotient_finite _ _ _ n Hfloor ltac:(lia)) as (He & Hd).
  apply add_zero_mul_eqb; assumption.
Qed.

Lemma grid_starts_at_emin_witness :
  exists world',
    init Sample.junk Sample.setup_dielectric
      [Sample.process 0 1 "born" (-0) 10.5 2; Sample.process 1 0 "" 5 7 3]
    = Done world'
    /\ forall r p', world' !! r = Some p' ->
         exists g,
           get_omega_grid (dielec_obj p') = (Some g, 5%Z)
           /\ (g !!! 0%nat =? -0)%float = true.
Proof.
  apply (grid_starts_at_emin Sample.junk Sample.setup_dielectric
           (Sample.process 0 1 "born" (-0) 10.5 2)
           [Sample.process 1 0 "" 5 7 3] 5);
    [apply ranked_two; reflexivity|discriminate|discriminate
    |vm_compute; reflexivity|lia].
Defined.

(** ** Set-up happens once *)

Lemma PHON_eq (x y : PHON) :
  my_rank y = my_rank x -> dos y = dos x -> dynamical y = dynamical x ->
  system y = system x ->
  calc_dielectric_constant (dielec_obj y) = calc_dielectric_constant (dielec_obj x) ->
  dielec (dielec_obj y) = dielec (dielec_obj x) ->
  omega_grid (dielec_obj y) = omega_grid (dielec_obj x) ->
  emin (dielec_obj y) = emin (dielec_obj x) ->
  emax (dielec_obj y) = emax (dielec_obj x) ->
  delta_e (dielec_obj y) = delta_e (dielec_obj x) ->
  nomega (dielec_obj y) = nomega (dielec_obj x) ->
  y = x.
Proof.
  destruct x as [r1 o1 dy1 s1 [c1 t1 g1 e1 E1 de1 n1]].
  destruct y as [r2 o2 dy2 s2 [c2 t2 g2 e2 E2 de2 n2]].
  simpl. intros. subst. reflexivity.
Qed.

Section SetUpOnce.

Variable setup_dielectric : Z -> Dynamical -> Dynamical.

(** The set-up installs a table and keeps the name of the file it reads. *)
Hypothesis setup_installs :
  forall v d, borncharge (setup_dielectric v d) <> None.
Hypothesis setup_keeps_file :
  forall v d, file_born (setup_dielectric v d) = file_born d.

Lemma with_borncharge_present v d :
  borncharge (with_borncharge setup_dielectric v d) <> None.
Proof.
  unfold with_borncharge. destruct (borncharge d) eqn:Hd.
  - rewrite Hd. discriminate.
  - apply setup_installs.
Qed.

Lemma with_borncharge_idem v v' d :
  with_borncharge setup_dielectric v' (with_borncharge setup_dielectric v d)
  = with_borncharge setup_dielectric v d.
Proof.
  pose proof (with_borncharge_present v d) as Hp.
  unfold with_borncharge at 1.
  destruct (borncharge (with_borncharge setup_dielectric v d));
    [reflexivity|contradiction].
Qed.

Lemma with_borncharge_file v d :
  file_born (with_borncharge setup_dielectric v d) = file_born d.
Proof.
  unfold with_borncharge. destruct (borncharge d);
    [reflexivity|apply setup_keeps_file].
Qed.

(** After [init], [get_zstar_mode] sets up no Born charges a second time: on
    every process whose Born-charge file is configured it leaves the
    [Dynamical] as [init] left it, so that the table it sizes before the call
    has one row of three charges for each mode the calculation runs over,
    each of them the unnormalised mode effective charge. *)
Theorem zstar_mode_after_init K junk FC2
    (eval_k : Dynamical -> System -> list float -> FC2 ->
              list float * array2 complex)
    (project_degenerate_eigenvectors :
       Dynamical -> array2 float -> FC2 -> list float -> array2 float ->
       array2 complex)
    root others n :
  ranked (root :: others) ->
  calc_dielectric_constant (dielec_obj root) <> 0%Z ->
  file_born (dynamical root) <> "" ->
  Num.floor (grid_quotient root) = Some n ->
  (0 <= n < 2 ^ 31)%Z ->
  exists world',
    init junk setup_dielectric (root :: others) = Done world'
    /\ forall r p' fc2_ext,
         world' !! r = Some p' ->
         file_born (dynamical p') <> "" ->
         let dyn := dynamical p' in
         let evec :=
           solved_evec FC2 eval_k project_degenerate_eigenvectors fc2_ext dyn
             (system p') in
         dim2 (neval dyn) (neval dyn) evec ->
         exists zm,
           get_zstar_mode K FC2 eval_k project_degenerate_eigenvectors
             setup_dielectric fc2_ext dyn (system p') = Done (dyn, zm)
           /\ dim2 (neval dyn) 3 zm
           /\ forall is_ i, is_ < neval dyn -> i < 3 ->
                get2 zm is_ i = Spec.zmode K dyn (system p') evec is_ i.
Proof.
  intros Hr Hflag Hfile Hfloor Hn.
  destruct (init_enabled_run junk setup_dielectric root others n Hr Hflag Hfile
              Hfloor Hn) as (world' & Hrun & Hall).
  exists world'. split; [exact Hrun|].
  intros r p' fc2_ext Hp' Hfile' dyn evec Hev.
  destruct (Forall2_lookup_r _ _ _ _ _ Hall Hp') as (p & _ & _ & Hdyn & _).
  assert (Hlazy : with_borncharge setup_dielectric 0 dyn = dyn).
  { subst dyn. rewrite Hdyn. apply with_borncharge_idem. }
  unfold get_zstar_mode.
  destruct (compute_mode_effective_charge_spec K FC2 eval_k
              project_degenerate_eigenvectors setup_dielectric fc2_ext dyn
              (system p') (replicate (neval dyn) (replicate 3 0%float)) false
              Hfile') as (zm & Hzm).
  - rewrite Hlazy. exact Hev.
  - rewrite Hlazy. apply dim2_replicate.
  - rewrite Hlazy in Hzm. exists zm. exact Hzm.
Qed.

(** [init] is idempotent: run again on the world it produced, with whatever
    fresh storage, it produces that world again, the same grid on every
    process and no second set-up of the Born charges. *)
Theorem init_idempotent junk junk' root others n :
  ranked (root :: others) ->
  calc_dielectric_constant (dielec_obj root) <> 0%Z ->
  file_born (dynamical root) <> "" ->
  Num.floor (grid_quotient root) = Some n ->
  (0 <= n < 2 ^ 31)%Z ->
  exists world',
    init junk setup_dielectric (root :: others) = Done world'
    /\ init junk' setup_dielectric world' = Done world'.
Proof.
  intros Hr Hflag Hfile Hfloor Hn.
  destruct (init_enabled_run junk setup_dielectric root others n Hr Hflag Hfile
              Hfloor Hn) as (world' & Hrun & Hall).
  exists world'. split; [exact Hrun|].
  destruct world' as [|root' others']; [inversion Hall|].
  pose proof (Forall2_lookup_lr _ _ _ 0 root root' Hall eq_refl eq_refl)
    as ((Hrank0 & Hdos0 & _) & Hdyn0 & (Hcalc0 & _) & _).
  destruct (init_enabled_run junk' setup_dielectric root' others' n)
    as (world'' & Hrun' & Hall').
  - intros r p' Hp'.
    destruct (Forall2_lookup_r _ _ _ _ _ Hall Hp') as (p & Hp & (Hrank & _) & _).
    rewrite Hrank. apply (Hr r p Hp).
  - rewrite Hcalc0. exact Hflag.
  - rewrite Hdyn0, with_borncharge_file. exact Hfile.
  - unfold grid_quotient in *. rewrite Hdos0. exact Hfloor.
  - exact Hn.
  - rewrite Hrun'. f_equal. apply list_eq_Forall2.
    apply Forall2_same_length_lookup_2.
    { symmetry. apply (Forall2_length _ _ _ Hall'). }
    intros i y x Hy Hx.
    destruct (Forall2_lookup_r _ _ _ _ _ Hall Hx)
      as (p & Hp & _ & Hdyn & (Hc & Hno & He & HE & Hd) & Hgrid).
    destruct (Forall2_lookup_lr _ _ _ _ _ _ Hall' Hx Hy)
      as ((Hrank' & Hdos' & Hsys' & Hten') & Hdyn'
          & (Hc' & Hno' & He' & HE' & Hd') & Hgrid').
    rewrite Hdos0 in He', HE', Hd', Hgrid'. rewrite Hcalc0 in Hc'.
    apply PHON_eq; try congruence.
    + rewrite Hdyn', Hdyn. apply with_borncharge_idem.
    + destruct Hgrid as (_ & g & Hg & Hlen & Hval).
      destruct Hgrid' as (_ & g' & Hg' & Hlen' & Hval').
      rewrite Hg, Hg'. f_equal.
      apply (array1_ext (Z.to_nat n)); [exact Hlen'|exact Hlen|].
      intros k Hk. rewrite Hval, Hval' by exact Hk. reflexivity.
Qed.

End SetUpOnce.

Lemma zstar_mode_after_init_witness :
  exists world' p' zm,
    init Sample.junk Sample.setup_dielectric
      [Sample.process 0 1 "born" 0 10.5 2; Sample.process 1 0 "born" 5 7 3]
    = Done world'
    /\ world' !! 1%nat = Some p'
    /\ get_zstar_mode Sample.K unit Sample.eval_k
         Sample.project_degenerate_eigenvectors Sample.setup_dielectric tt
         (dynamical p') (system p') = Done (dynamical p', zm)
    /\ dim2 (neval (dynamical p')) 3 zm.
Proof.
  destruct (zstar_mode_after_init Sample.setup_dielectric
              ltac:(discriminate)
              Sample.K Sample.junk unit Sample.eval_k
              Sample.project_degenerate_eigenvectors
              (Sample.process 0 1 "born" 0 10.5 2)
              [Sample.process 1 0 "born" 5 7 3] 5)
    as (world' & Hrun & Hall);
    [apply ranked_two; reflexivity|discriminate|discriminate
    |vm_compute; reflexivity|lia|].
  pose proof Hrun as Hw. vm_compute in Hw.
  destruct world' as [|p0 [|p1 rest]]; try discriminate Hw.
  injection Hw as H0 H1 _.
  destruct (Hall 1%nat p1 tt eq_refl) as (zm & Hzm & Hdim & _).
  - rewrite <- H1. discriminate.
  - rewrite <- H1. shape.
  - exists (p0 :: p1 :: rest), p1, zm.
    split; [exact Hrun|]. split; [reflexivity|]. split; [exact Hzm|exact Hdim].
Defined.

Lemma init_idempotent_witness :
  exists world',
    init Sample.junk Sample.setup_dielectric
      [Sample.process 0 1 "born" 0 10.5 2; Sample.process 1 0 "" 5 7 3]
    = Done world'
    /\ init (fun _ => nan) Sample.setup_dielectric world' = Done world'.
Proof.
  apply (init_idempotent Sample.setup_dielectric
           ltac:(discriminate) ltac:(reflexivity)
           Sample.junk (fun _ => nan)
           (Sample.process 0 1 "born" 0 10.5 2)
           [Sample.process 1 0 "" 5 7 3] 5);
    [apply ranked_two; reflexivity|discriminate|discriminate
    |vm_compute; reflexivity|lia].
Defined.
